(** * Profile dashboard: aggregation pipeline and chart geometry

    A shallow embedding of the data-shaping code of the GraphQL profile
    dashboard (services/GraphQLService.js, models/User.js, utils/SVGUtils.js,
    views/ProfileView.js) together with the properties stated about it.

    Conventions of the embedding.
    - Transaction amounts are JavaScript numbers holding integers well inside
      the 53-bit safe range; they are modelled by [Z].
    - A JavaScript object used as a dictionary is the finite map of its own
      properties. The object literal [{}] inherits from [Object.prototype]:
      a read under an inherited name sees the inherited value and a write to
      [__proto__] is taken by the inherited setter (see [inherited]).
      [Object.entries] of a dictionary, where the order of the entries
      matters, is an association list.
    - [x || d] on a number is written out: the default is taken when the
      left operand is absent or is [0].
    - The numbers of the chart code are exact rationals extended with the
      special values of IEEE 754 (see [number]); timestamps are integers.
      Coordinates are kept exact. Where the code derives a whole number from
      a quotient or a product ([Math.round] of a percentage, the amount
      [darkenColor] subtracts), the operand is rounded to binary64 after
      each operation, as the code holds it (see [Double]).
    - Exceptions are values of a sum type; DOM elements are records of the
      attributes computed for them, and the container looked up by id is
      taken to exist. *)

From Stdlib Require Import ZArith QArith Qround Qpower Lia Lqa List Sorted Permutation Ascii.
From Stdlib Require Import SpecFloat.
From stdpp Require Import base option list gmap strings.

Local Open Scope Z_scope.

(** ** Data model *)

(** A row of the [transactions] relation as the GraphQL query selects it. *)
Record Transaction : Type := mkTransaction {
  type : string;
  amount : Z;
  createdAt : Z;
  path : option string;
  originEventId : Z
}.

(** [t.type === 'xp'] and [t.type === 'level']. *)
Definition is_xp (t : Transaction) : bool := String.eqb (type t) "xp".
Definition is_level (t : Transaction) : bool := String.eqb (type t) "level".

(** [n || 0] for a number that may be absent. *)
Definition or_zero (o : option Z) : Z :=
  match o with
  | Some v => if v =? 0 then 0 else v
  | None => 0
  end.

(** [s || d] for a string that may be absent: the empty string is falsy. *)
Definition or_string (o : option string) (d : string) : string :=
  match o with
  | Some s => if String.eqb s "" then d else s
  | None => d
  end.

(** ** Plain objects as dictionaries

    The dictionaries of the code are object literals [{}]. Reading [acc[k]]
    when [acc] has no own property [k] follows the prototype chain: for a
    property name of [Object.prototype] the result is the inherited function
    (for [__proto__], the prototype object), which is truthy. Assigning to
    [acc[k]] creates or updates an own property, except for [__proto__],
    where the inherited setter runs and ignores a value that is neither an
    object nor [null]. *)

(** The property names of [Object.prototype]. *)
Definition prototypeNames : list string :=
  [ "constructor"; "__defineGetter__"; "__defineSetter__"; "hasOwnProperty";
    "__lookupGetter__"; "__lookupSetter__"; "isPrototypeOf";
    "propertyIsEnumerable"; "toString"; "valueOf"; "__proto__";
    "toLocaleString" ].

Definition inherited (k : string) : bool := existsb (String.eqb k) prototypeNames.

(** What a dictionary of amounts can hold: a number, or the string that [+]
    builds once its left operand is an inherited function or a string. The
    characters of the string (the source text of the function followed by
    the amounts in decimal) are not modelled; it is never empty. *)
Inductive Value : Type :=
| VNumber (z : Z)
| VString.

(** [acc[k] = v] for a value that is a number or a string. *)
Definition assign {V} (acc : gmap string V) (k : string) (v : V) : gmap string V :=
  if String.eqb k "__proto__" then acc else <[k := v]> acc.

(** [(acc[k] || 0) + amount] *)
Definition orZeroPlus (acc : gmap string Value) (k : string) (amount : Z) : Value :=
  match acc !! k with
  | Some (VNumber v) => VNumber (or_zero (Some v) + amount)
  | Some VString => VString
  | None => if inherited k then VString else VNumber (0 + amount)
  end.

(** A row of [xps]: project-scoped XP. *)
Record XPEntry : Type := mkXPEntry {
  xp_amount : Z;
  xp_originEventId : Z;
  xp_path : option string
}.

(** A row of [audits]; [grade] may be [null]. *)
Record AuditEntry : Type := mkAuditEntry {
  grade : option Q;
  auditedAt : option Z
}.

(** A row of [progressesByPath]. *)
Record ProgressEntry : Type := mkProgressEntry {
  pr_path : string;
  succeeded : bool;
  count : Z
}.

(** The user object of the GraphQL response. Every field is a property that
    may be missing from the JSON object. *)
Record RawUser : Type := mkRawUser {
  login : option string;
  email : option string;
  firstName : option string;
  lastName : option string;
  campus : option string;
  auditRatio : option Q;
  totalUp : option Z;
  totalDown : option Z;
  xps : option (list XPEntry);
  transactions : option (list Transaction);
  audits : option (list AuditEntry);
  progressesByPath : option (list ProgressEntry)
}.

(** The [data] property of the GraphQL response: [{ user: [...] }]. *)
Record ResponseData : Type := mkResponseData {
  user : option (list RawUser)
}.

(** What a call can throw. *)
Inductive Exn : Type :=
| InvalidResponseStructure   (* new Error('Invalid response structure from GraphQL') *)
| TypeError.                 (* a property read or a method call on undefined *)

(** The outcome of a call that can throw. *)
Inductive Result (A : Type) : Type :=
| Ok (a : A)
| Throw (e : Exn).
Arguments Ok {A} a.
Arguments Throw {A} e.

(** Sequencing: the first exception thrown aborts what follows. *)
#[global] Instance Result_ret : MRet Result := fun _ a => Ok a.
#[global] Instance Result_bind : MBind Result := fun _ _ k r =>
  match r with
  | Ok a => k a
  | Throw e => Throw e
  end.

(** Reading a property of array type and using it as an array: a missing
    property makes the use throw a [TypeError]. *)
Definition useArray {A} (o : option (list A)) : Result (list A) :=
  match o with
  | Some l => Ok l
  | None => Throw TypeError
  end.

(** [q || 0] on a possibly missing rational number. *)
Definition or_zeroQ (o : option Q) : Q :=
  match o with
  | Some q => q
  | None => 0%Q
  end.

(** ** Arrays

    [Array.prototype.sort(compare)] is a stable sort: it orders [a] before [b]
    when [compare(a, b) < 0] and keeps elements that compare equal in their
    original order. It is embedded as a stable insertion sort; [keep a b]
    says that [compare(a, b)] is not positive, so that [a], met first, stays
    before [b]. *)

Fixpoint sortInsert {A} (keep : A -> A -> bool) (x : A) (l : list A) : list A :=
  match l with
  | [] => [x]
  | y :: l' => if keep x y then x :: y :: l' else y :: sortInsert keep x l'
  end.

Definition sortBy {A} (keep : A -> A -> bool) (l : list A) : list A :=
  fold_right (sortInsert keep) [] l.

(** ** services/GraphQLService.js *)

Module GraphQLService.

(** [transactions.filter(t => t.type === 'xp').reduce((sum, t) => sum + t.amount, 0)] *)
Definition calculateTotalXP (transactions : list Transaction) : Z :=
  fold_left (fun sum t => sum + amount t) (List.filter is_xp transactions) 0.

(** One entry of the timeline: [{date, amount, originEventId}]. *)
Record TimelineEntry : Type := mkTimelineEntry {
  tl_date : Z;
  tl_amount : Z;
  tl_originEventId : Z
}.

Definition createTimeline (transactions : list Transaction) : list TimelineEntry :=
  List.map (fun xp => mkTimelineEntry (createdAt xp) (amount xp) (originEventId xp))
           (List.filter is_xp transactions).

(** The reducer of [groupXPByPath]:
    [const path = t.path || 'Unknown'; acc[path] = (acc[path] || 0) + t.amount]. *)
Definition groupStep (acc : gmap string Value) (t : Transaction) : gmap string Value :=
  let p := or_string (path t) "Unknown" in
  assign acc p (orZeroPlus acc p (amount t)).

Definition groupXPByPath (transactions : list Transaction) : gmap string Value :=
  fold_left groupStep (List.filter is_xp transactions) ∅.

(** The comparator [(a, b) => b.amount - a.amount] of the level sort. *)
Definition levelCompare (a b : Transaction) : Z := amount b - amount a.

(** [levelTransactions[0]?.amount || 0] *)
Definition getCurrentLevel (transactions : list Transaction) : Z :=
  let levelTransactions :=
    sortBy (fun a b => levelCompare a b <=? 0) (List.filter is_level transactions) in
  or_zero (amount <$> head levelTransactions).

(** The structured profile [getUserProfile] returns. *)
Record BasicInfo : Type := mkBasicInfo {
  b_login : option string;
  b_email : option string;
  b_firstName : option string;
  b_lastName : option string;
  b_campus : option string
}.

Record AuditInfo : Type := mkAuditInfo {
  a_ratio : Q;
  a_totalUp : Z;
  a_totalDown : Z;
  a_auditsperformed : nat;
  a_audits : nat
}.

Record XPInfo : Type := mkXPInfo {
  totalXP : Z;
  xpByPath : gmap string Value;
  x_xps : list XPEntry
}.

Record ProgressInfo : Type := mkProgressInfo {
  totalProjects : nat;
  succeededProjects : nat;
  projectDetails : list ProgressEntry
}.

Record Profile : Type := mkProfile {
  basicInfo : BasicInfo;
  auditInfo : AuditInfo;
  xpInfo : XPInfo;
  xpTimeline : list TimelineEntry;
  progressInfo : ProgressInfo;
  p_level : Z
}.

(** [a.grade > 0]; [null > 0] is false. *)
Definition gradePositive (a : AuditEntry) : bool :=
  match grade a with
  | Some g => negb (Qle_bool g 0)
  | None => false
  end.

(** [response.user[0]] behind the guard
    [if (!response || !response.user || !response.user[0]) throw ...]. *)
Definition firstUser (response : option ResponseData) : option RawUser :=
  match response with
  | Some r =>
      match user r with
      | Some us => head us
      | None => None
      end
  | None => None
  end.

(** The body of [getUserProfile] after the query has returned [response].
    The properties of the object literal are evaluated in source order; the
    [catch] block logs and rethrows, so an exception reaches the caller
    unchanged. Only [userData.xps] has a fallback ([|| []]). *)
Definition getUserProfile (response : option ResponseData) : Result Profile :=
  match firstUser response with
  | None => Throw InvalidResponseStructure
  | Some userData =>
      let basic := mkBasicInfo (login userData) (email userData)
                     (firstName userData) (lastName userData) (campus userData) in
      auditsL ← useArray (audits userData);
      let audit := mkAuditInfo (or_zeroQ (auditRatio userData))
                     (or_zero (totalUp userData)) (or_zero (totalDown userData))
                     (length auditsL)
                     (length (List.filter gradePositive auditsL)) in
      transactionsL ← useArray (transactions userData);
      let xp := mkXPInfo (calculateTotalXP transactionsL)
                  (groupXPByPath transactionsL)
                  (default [] (xps userData)) in
      let timeline := createTimeline transactionsL in
      progressL ← useArray (progressesByPath userData);
      let progress := mkProgressInfo (length progressL)
                        (length (List.filter succeeded progressL)) progressL in
      mret (mkProfile basic audit xp timeline progress (getCurrentLevel transactionsL))
  end.

(** The deprecated [processUserData]: the parts of its result that are
    computed ([basicInfo], [auditInfo] and [attributes] are copied). *)
Record LegacyProfile : Type := mkLegacyProfile {
  l_totalXP : Z;
  l_xpByPath : gmap string Z;
  l_totalProjects : nat;
  l_succeededProjects : nat;
  l_level : Z
}.

(** [const user = data.user[0]]; reading a property of a missing user, or
    using a missing array, throws. [acc[xp.path] = xp.amount] overwrites;
    a missing path is the property name ["undefined"], and the amount
    assigned to [__proto__] is dropped by the inherited setter. *)
Definition processUserData (data : ResponseData) : Result LegacyProfile :=
  users ← useArray (user data);
  match head users with
  | None => Throw TypeError
  | Some u =>
      xpsL ← useArray (xps u);
      let total := fold_left (fun sum xp => sum + xp_amount xp) xpsL 0 in
      let byPath := fold_left
                      (fun acc xp =>
                         assign acc (default "undefined" (xp_path xp)) (xp_amount xp))
                      xpsL (∅ : gmap string Z) in
      progressL ← useArray (progressesByPath u);
      transactionsL ← useArray (transactions u);
      mret (mkLegacyProfile total byPath (length progressL)
              (length (List.filter succeeded progressL))
              (or_zero (amount <$> head transactionsL)))
  end.

End GraphQLService.

(** ** models/User.js *)

Module User.

(** The fields the constructor assigns ([attrs] is opaque and left out). *)
Record t : Type := mkUser {
  u_login : option string;
  u_email : option string;
  u_firstName : option string;
  u_lastName : option string;
  u_auditRatio : Q;
  u_totalUp : Z;
  u_totalDown : Z;
  u_progressesByPath : list ProgressEntry;
  u_transactions : list Transaction;
  u_xps : list XPEntry;
  level : Z
}.

(** [constructor(userData)]: every optional property falls back to a default
    with [||]; [this.level = this.transactions[0]?.amount || 0]. *)
Definition constructor (userData : RawUser) : t :=
  let this_transactions := default [] (transactions userData) in
  {| u_login := login userData;
     u_email := email userData;
     u_firstName := firstName userData;
     u_lastName := lastName userData;
     u_auditRatio := or_zeroQ (auditRatio userData);
     u_totalUp := or_zero (totalUp userData);
     u_totalDown := or_zero (totalDown userData);
     u_progressesByPath := default [] (progressesByPath userData);
     u_transactions := this_transactions;
     u_xps := default [] (xps userData);
     level := or_zero (amount <$> head this_transactions) |}.

(** One point of the cumulative series: [{date, value}]. *)
Record XPPoint : Type := mkXPPoint {
  date : Z;
  value : Z
}.

(** The [map] callback of [getXPOverTime] updates the captured variable
    [accumulator] with [accumulator += t.amount] and uses the new value; the
    variable is threaded through the traversal as an argument. *)
Fixpoint accumulate (accumulator : Z) (l : list Transaction) : list XPPoint :=
  match l with
  | [] => []
  | t :: l' =>
      let accumulator' := accumulator + amount t in
      mkXPPoint (createdAt t) accumulator' :: accumulate accumulator' l'
  end.

Definition getXPOverTime (this : t) : list XPPoint :=
  accumulate 0 (List.filter is_xp (u_transactions this)).

(** [getXPByProject]: [acc[xp.path || 'Other'] = (acc[project] || 0) + xp.amount]. *)
Definition getXPByProject (this : t) : gmap string Value :=
  fold_left (fun acc xp =>
               let project := or_string (xp_path xp) "Other" in
               assign acc project (orZeroPlus acc project (xp_amount xp)))
            (u_xps this) ∅.

End User.

(** ** Strings *)

Module JSString.

(** [s.includes(sub)] *)
Fixpoint includes (sub s : string) : bool :=
  String.prefix sub s
  || match s with
     | EmptyString => false
     | String _ s' => includes sub s'
     end.

(** [s.split(sep)] for a non-empty separator. [cur] is the piece being
    read; after a match the remaining [skip] characters of the separator
    are passed over. *)
Fixpoint splitFrom (sep s : string) (skip : nat) (cur : string) : list string :=
  match s with
  | EmptyString => [cur]
  | String c s' =>
      match skip with
      | S k => splitFrom sep s' k cur
      | O =>
          if String.prefix sep s
          then cur :: splitFrom sep s' (String.length sep - 1) EmptyString
          else splitFrom sep s' 0 (cur ++ String c EmptyString)
      end
  end.

Definition split (sep s : string) : list string := splitFrom sep s 0 EmptyString.

(** [s.replace(c, '')] for a pattern of one character: the first
    occurrence is removed. *)
Fixpoint removeFirst (c : ascii) (s : string) : string :=
  match s with
  | EmptyString => EmptyString
  | String d s' => if Ascii.eqb c d then s' else String d (removeFirst c s')
  end.

(** [s.slice(1)] *)
Definition slice1 (s : string) : string :=
  match s with
  | EmptyString => EmptyString
  | String _ s' => s'
  end.

(** The value of a hexadecimal digit, in either case. *)
Definition hexValue (c : ascii) : option Z :=
  let n := Z.of_N (Ascii.N_of_ascii c) in
  if (48 <=? n) && (n <=? 57) then Some (n - 48)
  else if (97 <=? n) && (n <=? 102) then Some (n - 87)
  else if (65 <=? n) && (n <=? 70) then Some (n - 55)
  else None.

(** The digits read so far are worth [acc]; [seen] tells whether there is
    one. Reading stops at the first character that is not a digit. *)
Fixpoint parseDigits (s : string) (seen : bool) (acc : Z) : option Z :=
  match s with
  | EmptyString => if seen then Some acc else None
  | String c s' =>
      match hexValue c with
      | Some d => parseDigits s' true (acc * 16 + d)
      | None => if seen then Some acc else None
      end
  end.

Definition isSpace (c : ascii) : bool :=
  let n := Z.of_N (Ascii.N_of_ascii c) in
  ((9 <=? n) && (n <=? 13)) || (n =? 32).

Fixpoint trimStart (s : string) : string :=
  match s with
  | String c s' => if isSpace c then trimStart s' else s
  | EmptyString => EmptyString
  end.

Definition dropHexPrefix (s : string) : string :=
  if String.prefix "0x" s || String.prefix "0X" s
  then slice1 (slice1 s) else s.

(** [parseInt(s, 16)]: leading white space, a sign and a [0x] prefix are
    accepted, then the longest run of digits is read; [None] is [NaN]. *)
Definition parseInt16 (s : string) : option Z :=
  match trimStart s with
  | String "-"%char s' => Z.opp <$> parseDigits (dropHexPrefix s') false 0
  | String "+"%char s' => parseDigits (dropHexPrefix s') false 0
  | s' => parseDigits (dropHexPrefix s') false 0
  end.

Definition hexDigit (d : Z) : ascii :=
  match d with
  | 0 => "0" | 1 => "1" | 2 => "2" | 3 => "3" | 4 => "4" | 5 => "5"
  | 6 => "6" | 7 => "7" | 8 => "8" | 9 => "9" | 10 => "a" | 11 => "b"
  | 12 => "c" | 13 => "d" | 14 => "e" | _ => "f"
  end%char.

(** The digits of a positive integer, most significant first, in front of
    [acc]; every step divides by 16, so [fuel] steps are enough for a
    number below [16 ^ fuel]. *)
Fixpoint hexDigits (fuel : nat) (n : Z) (acc : string) : string :=
  match fuel with
  | O => acc
  | S fuel' =>
      let acc' := String (hexDigit (n mod 16)) acc in
      if n / 16 =? 0 then acc' else hexDigits fuel' (n / 16) acc'
  end.

(** [n.toString(16)] for an integer [n]. *)
Definition toString16 (n : Z) : string :=
  if n <? 0
  then String "-"%char (hexDigits (S (Z.to_nat (Z.log2 (- n)))) (- n) EmptyString)
  else hexDigits (S (Z.to_nat (Z.log2 n))) n EmptyString.

(** [s.toLowerCase()] on the letters A to Z. *)
Definition lowerChar (c : ascii) : ascii :=
  let n := Ascii.N_of_ascii c in
  if ((65 <=? n) && (n <=? 90))%N then Ascii.ascii_of_N (n + 32) else c.

Fixpoint toLowerCase (s : string) : string :=
  match s with
  | EmptyString => EmptyString
  | String c s' => String (lowerChar c) (toLowerCase s')
  end.

End JSString.

(** ** JavaScript numbers in the chart code

    The chart code divides, so its numbers leave the integers. A number is
    modelled as an exact rational or one of the three special values of
    IEEE 754 arithmetic; the operations follow the IEEE rules for the special
    values (division of zero by zero and the difference of equal infinities
    are [NaN], a non-zero number divided by zero is an infinity, [NaN]
    propagates and compares false with everything). Finite results are kept
    exact; where the code derives a whole number from them they are rounded
    to binary64 first (see [Double]). The sign of zero is not modelled. *)

Inductive number : Type :=
| Fin (q : Q)
| PosInf
| NegInf
| NaN.

Module Num.

Definition ofZ (z : Z) : number := Fin (inject_Z z).
Definition ofNat (n : nat) : number := Fin (inject_Z (Z.of_nat n)).

Definition Qpos_b (q : Q) : bool := negb (Qle_bool q 0).
Definition Qzero_b (q : Q) : bool := Qeq_bool q 0.

Definition opp (a : number) : number :=
  match a with
  | Fin x => Fin (- x)
  | PosInf => NegInf
  | NegInf => PosInf
  | NaN => NaN
  end.

Definition add (a b : number) : number :=
  match a, b with
  | NaN, _ | _, NaN => NaN
  | Fin x, Fin y => Fin (x + y)
  | PosInf, NegInf | NegInf, PosInf => NaN
  | PosInf, _ | _, PosInf => PosInf
  | NegInf, _ | _, NegInf => NegInf
  end.

Definition sub (a b : number) : number := add a (opp b).

(** An infinity with the sign of a finite factor; [NaN] for a zero factor. *)
Definition scaleInf (positive : bool) (y : Q) : number :=
  if Qzero_b y then NaN
  else if Bool.eqb positive (Qpos_b y) then PosInf else NegInf.

Definition mul (a b : number) : number :=
  match a, b with
  | NaN, _ | _, NaN => NaN
  | Fin x, Fin y => Fin (x * y)
  | PosInf, Fin y | Fin y, PosInf => scaleInf true y
  | NegInf, Fin y | Fin y, NegInf => scaleInf false y
  | PosInf, PosInf | NegInf, NegInf => PosInf
  | PosInf, NegInf | NegInf, PosInf => NegInf
  end.

Definition div (a b : number) : number :=
  match a, b with
  | NaN, _ | _, NaN => NaN
  | Fin x, Fin y =>
      if Qzero_b y then
        if Qzero_b x then NaN else if Qpos_b x then PosInf else NegInf
      else Fin (x / y)
  | Fin _, (PosInf | NegInf) => Fin 0
  | (PosInf | NegInf), (PosInf | NegInf) => NaN
  | PosInf, Fin y => if Qle_bool 0 y then PosInf else NegInf
  | NegInf, Fin y => if Qle_bool 0 y then NegInf else PosInf
  end.

(** [a > b] *)
Definition gtb (a b : number) : bool :=
  match a, b with
  | NaN, _ | _, NaN => false
  | Fin x, Fin y => negb (Qle_bool x y)
  | PosInf, PosInf => false
  | PosInf, _ => true
  | NegInf, _ => false
  | Fin _, NegInf => true
  | Fin _, PosInf => false
  end.

(** [Math.round]: the nearest integer, halves going up. *)
Definition round (a : number) : number :=
  match a with
  | Fin x => Fin (inject_Z (Qfloor (x + (1 # 2))))
  | _ => a
  end.

(** [Math.max(...l)]: minus infinity for no argument, [NaN] as soon as one
    argument is [NaN]. *)
Definition max2 (a b : number) : number :=
  match a, b with
  | NaN, _ | _, NaN => NaN
  | _, _ => if gtb b a then b else a
  end.

Definition max (l : list number) : number := fold_left max2 l NegInf.

(** Equality of the values denoted: rationals are compared as fractions;
    [NaN] is not a value and equals nothing. *)
Definition eq (a b : number) : Prop :=
  match a, b with
  | Fin x, Fin y => (x == y)%Q
  | PosInf, PosInf | NegInf, NegInf => True
  | _, _ => False
  end.

Definition sum (l : list number) : number := fold_left add l (Fin 0).

End Num.

(** ** Binary64

    A JavaScript number is a binary64 value: the result of an arithmetic
    operation is the exact result rounded to the nearest number with a
    significand of 53 bits, ties going to the even significand; below
    [2 ^ -1022] the spacing of the numbers stays [2 ^ -1074]. Overflow to
    [Infinity], which starts at magnitudes of [2 ^ 1024], is not part of the
    model, and the sign of zero is not kept. *)

Module Double.

Definition pow2 (e : Z) : Q := (2 ^ e)%Q.

(** The integer [k] with [2 ^ k <= q < 2 ^ (k + 1)], for [q > 0]. *)
Definition ilog2 (q : Q) : Z :=
  let k := Z.log2 (Qnum q) - Z.log2 (Zpos (Qden q)) in
  if Qle_bool (pow2 k) q then k else k - 1.

(** The nearest integer, ties to even. *)
Definition rne (x : Q) : Z :=
  let f := Qfloor x in
  match Qcompare (x - inject_Z f) (1 # 2) with
  | Lt => f
  | Gt => f + 1
  | Eq => if Z.even f then f else f + 1
  end.

(** The exponent of the last bit of the significand of the numbers around
    [q > 0]. *)
Definition exponent (q : Q) : Z := Z.max (ilog2 q - 52) (-1074).

Definition nearest (q : Q) : Q :=
  let e := exponent q in (inject_Z (rne (q / pow2 e)) * pow2 e)%Q.

(** The binary64 number nearest to [q]. *)
Definition fl (q : Q) : Q :=
  match Qcompare q 0 with
  | Eq => 0%Q
  | Gt => nearest q
  | Lt => (- nearest (- q))%Q
  end.

(** The value a variable holds after an operation whose exact result is
    [a]. *)
Definition binary64 (a : number) : number :=
  match a with
  | Fin q => Fin (fl q)
  | _ => a
  end.

End Double.

(** ** utils/SVGUtils.js

    A chart function builds an [svg] element and appends children to it. The
    embedding returns the children in the order they are appended, each with
    the numeric attributes the code computes. *)

Module SVGUtils.

(** A [rect] element. *)
Record Rect : Type := mkRect {
  r_x : number;
  r_y : number;
  r_width : number;
  r_height : number;
  r_fill : string
}.

(** The [forEach] of [createAuditRatioChart] over its array [keys]. *)
Definition auditBars (keys : list number) : list Rect :=
  let maxAttributeValue := Num.max keys in
  let barWidth := Num.div (Fin 100) (Num.ofNat (length keys)) in
  imap (fun index key =>
          let barHeight := Num.mul (Num.div key maxAttributeValue) (Fin 100) in
          mkRect (Num.mul (Num.ofNat index) barWidth)
                 (Num.sub (Fin 100) barHeight)
                 (Num.sub barWidth (Fin 2))
                 barHeight
                 (if Nat.eqb index 0 then "skyblue" else "lightgreen"))
       keys.

(** [createAuditRatioChart(up, down, containerId)]: [const keys = [up, down]]. *)
Definition createAuditRatioChart (up down : number) : list Rect :=
  auditBars [up; down].

(** A command of the path data: [M x,y] or [L x,y]. *)
Inductive PathCmd : Type :=
| MoveTo (x y : number)
| LineTo (x y : number).

Definition cmd_x (c : PathCmd) : number :=
  match c with MoveTo x _ | LineTo x _ => x end.
Definition cmd_y (c : PathCmd) : number :=
  match c with MoveTo _ y | LineTo _ y => y end.

(** [calculateTimelinePath(xpData)]: the path data, one command per point;
    the empty list stands for the empty string. *)
Definition calculateTimelinePath (xpData : list GraphQLService.TimelineEntry)
  : list PathCmd :=
  if Nat.eqb (length xpData) 0 then []
  else
    let maxXP :=
      Num.max (List.map (fun d => Num.ofZ (GraphQLService.tl_amount d)) xpData) in
    imap (fun i d =>
            let x := Num.mul
                       (Num.div (Num.ofNat i)
                                (Num.sub (Num.ofNat (length xpData)) (Fin 1)))
                       (Fin 100) in
            let y := Num.sub (Fin 50)
                       (Num.mul (Num.div (Num.ofZ (GraphQLService.tl_amount d)) maxXP)
                                (Fin 50)) in
            if Nat.eqb i 0 then MoveTo x y else LineTo x y)
         xpData.

End SVGUtils.

(** ** views/ProfileView.js *)

Module ProfileView.

(** *** [darkenColor] *)

(** The operand of a bitwise operator is converted to a 32-bit signed
    integer; [NaN] becomes 0. *)
Definition toInt32 (n : Z) : Z := (n + 2 ^ 31) mod 2 ^ 32 - 2 ^ 31.

(** [x < 0 ? 0 : x] *)
Definition clamp0 (x : Z) : Z := if x <? 0 then 0 else x.

(** [Math.round(2.55 * percent)]: the literal is the binary64 number nearest
    to 2.55, the product is rounded to binary64 and [Math.round] takes the
    nearest integer, halves going up. *)
Definition darkenAmount (percent : Q) : Z :=
  Qfloor (Double.fl (Double.fl (255 # 100) * percent) + (1 # 2)).

(** The three channels read off [num]:
    [num >> 16], [num >> 8 & 0x00FF], [num & 0x0000FF]. *)
Definition channelR (num : Z) : Z := Z.shiftr (toInt32 num) 16.
Definition channelG (num : Z) : Z := Z.land (Z.shiftr (toInt32 num) 8) 255.
Definition channelB (num : Z) : Z := Z.land (toInt32 num) 255.

(** [parseInt(color.replace('#', ''), 16)], with 0 for [NaN] as the bitwise
    operators read it. *)
Definition colorNumber (color : string) : Z :=
  default 0 (JSString.parseInt16 (JSString.removeFirst "#" color)).

Definition darkenColor (color : string) (percent : Q) : string :=
  let num := colorNumber color in
  let amt := darkenAmount percent in
  let R := channelR num - amt in
  let G := channelG num - amt in
  let B := channelB num - amt in
  String "#"
    (JSString.slice1
       (JSString.toString16
          (16777216 + clamp0 R * 65536 + clamp0 G * 256 + clamp0 B))).

(** The palette of the pie chart. *)
Definition colors : list string :=
  [ "#3B82F6"; "#60A5FA"; "#2563EB"; "#1D4ED8"; "#3730A3";
    "#10B981"; "#34D399"; "#059669"; "#047857"; "#065F46";
    "#8B5CF6"; "#A78BFA"; "#7C3AED"; "#6D28D9"; "#5B21B6";
    "#EC4899"; "#F472B6"; "#DB2777"; "#BE185D"; "#9D174D";
    "#F59E0B"; "#FBBF24"; "#D97706"; "#B45309"; "#92400E";
    "#EF4444"; "#F87171"; "#DC2626"; "#B91C1C"; "#991B1B";
    "#14B8A6"; "#2DD4BF"; "#0D9488"; "#0F766E"; "#115E59";
    "#6366F1"; "#818CF8"; "#4F46E5"; "#4338CA"; "#3730A3";
    "#FBBF24"; "#F59E0B"; "#D97706"; "#B45309"; "#92400E";
    "#84CC16"; "#A3E635"; "#65A30D"; "#4D7C0F"; "#3F6212";
    "#06B6D4"; "#22D3EE"; "#0891B2"; "#0E7490"; "#155E75";
    "#6B7280"; "#9CA3AF"; "#4B5563"; "#374151"; "#1F2937";
    "#8B5CF6"; "#EC4899"; "#10B981"; "#3B82F6"; "#F59E0B" ].

(** *** [renderProjectPieChart]

    Angles are kept exact by measuring them in units of pi radians:
    [Math_PI] is the unit, a full turn is 2 and [degrees] multiplies by 180.
    The sine and cosine of an angle are not evaluated: a point of the chart
    is kept in polar form around the centre of the pie. *)

Definition Math_PI : number := Fin 1.

(** The point [(centerX + r * cos(angle), centerY + r * sin(angle))]. *)
Record Point : Type := polar {
  pt_radius : Z;
  pt_angle : number
}.

(** Commands of the [d] attribute of a slice. *)
Inductive ArcCmd : Type :=
| M (p : Point)
| L (p : Point)
| A (r : Z) (largeArcFlag sweepFlag : bool) (p : Point)
| ClosePath.

Definition titleHeight : Z := 60.
Definition pieChartHeight : Z := 500.
Definition rectHeight : Z := 40.
Definition rectMargin : Z := 10.
Definition legendStartY : Z := titleHeight + pieChartHeight.
Definition centerX : Z := 500.
Definition centerY : Z := titleHeight + pieChartHeight / 2.
Definition radius : Z := 220.
Definition innerRadius : Z := 90.
Definition rectWidth : Z := 450.
Definition rectPadding : Z := 10.

(** [Math.ceil(projectCount / 2)] *)
Definition rowsNeeded (projectCount : nat) : Z := (Z.of_nat projectCount + 1) / 2.

Definition totalHeight (projectCount : nat) : Z :=
  legendStartY + rowsNeeded projectCount * (rectHeight + rectMargin) + 30.

(** An element of [projectXP]. *)
Record Project : Type := mkProject {
  project : string;
  p_amount : number;
  p_path : string
}.

(** A [path] element of the pie with the attributes computed for it. *)
Record Slice : Type := mkSlice {
  s_d : list ArcCmd;
  s_fill : nat;                 (* url(#pie-gradient-{i % colors.length}) *)
  s_project : string;           (* data-project *)
  s_amount : number;            (* data-amount *)
  s_percentage : number         (* data-percentage *)
}.

Inductive Primitive : Type :=
| Placeholder (message : string)
| Title (x y : Z) (text : string)
| Defs (gradients : list (string * string))
| ArcPath (slice : Slice)
| PercentLabel (at_ : Point) (percent : number)
| CenterCircle (cx cy r : Z)
| TotalText (x y : Z)
| TotalValue (x y : Z) (total : number)
| Tooltip (x y : Z)
| ProjectsTitle (x y : Z)
| LegendRect (x y width height : Z) (fill : nat)
| LegendName (x y : Z) (name : string)
| LegendPercent (x y : Z) (percent amount : number).

(** What ends up in the container: the height given to it, when one is set,
    and the elements in document order. *)
Record Scene : Type := mkScene {
  containerHeight : option Z;
  children : list Primitive
}.

Definition moduleMarker : string := "/bahrain/bh-module/".

(** The callback of [filter]: the key holds the marker exactly once and no
    slash after it. *)
Definition isModuleProject (entry : string * Z) : bool :=
  let path := entry.1 in
  if String.eqb path "" || negb (JSString.includes moduleMarker path) then false
  else
    match JSString.split moduleMarker path with
    | [_; afterModule] => negb (JSString.includes "/" afterModule)
    | _ => false
    end.

(** The callback of [map]; the amount becomes [Math.round(amount / 1000)].
    The quotient is kept exact: for an amount in the safe integer range the
    binary64 quotient rounds to the same whole number. *)
Definition toProject (entry : string * Z) : Project :=
  let path := entry.1 in
  mkProject (default "" (JSString.split moduleMarker path !! 1%nat))
            (Num.round (Num.div (Num.ofZ entry.2) (Fin 1000)))
            path.

(** [(a, b) => b.amount - a.amount] is not positive. *)
Definition keepOrder (a b : Project) : bool :=
  negb (Num.gtb (Num.sub (p_amount b) (p_amount a)) (Fin 0)).

Definition slicePath (startAngle endAngle : number) (largeArcFlag : bool)
  : list ArcCmd :=
  [ M (polar innerRadius startAngle);
    L (polar radius startAngle);
    A radius largeArcFlag true (polar radius endAngle);
    L (polar innerRadius endAngle);
    A innerRadius largeArcFlag false (polar innerRadius startAngle);
    ClosePath ].

(** The first [forEach]: [startAngle] is the variable the callback updates
    with [startAngle = endAngle], [i] the index of the element. A slice is
    followed by its label when its share is above 3%. *)
Fixpoint drawSlices (totalXP startAngle : number) (i : nat) (projectXP : list Project)
  : list Primitive :=
  match projectXP with
  | [] => []
  | p :: rest =>
      let percentage := Num.div (p_amount p) totalXP in
      let angleSize := Num.mul (Num.mul percentage Math_PI) (Fin 2) in
      let endAngle := Num.add startAngle angleSize in
      let largeArcFlag := Num.gtb angleSize Math_PI in
      let path :=
        ArcPath (mkSlice (slicePath startAngle endAngle largeArcFlag)
                         (i mod length colors)%nat
                         (project p) (p_amount p)
                         (Num.round
                            (Double.binary64
                               (Num.mul (Double.binary64 percentage) (Fin 100))))) in
      let label :=
        if Num.gtb percentage (Fin (3 # 100))
        then [PercentLabel
                (polar (innerRadius + (radius - innerRadius) / 2)
                       (Num.add startAngle (Num.div angleSize (Fin 2))))
                (Num.round
                   (Double.binary64 (Num.mul (Double.binary64 percentage) (Fin 100))))]
        else [] in
      path :: label ++ drawSlices totalXP endAngle (S i) rest
  end.

(** The second [forEach]: the two-column legend. *)
Definition drawLegend (totalXP : number) (projectXP : list Project) : list Primitive :=
  concat
    (imap (fun i p =>
             let isLeftColumn := Nat.eqb (i mod 2) 0 in
             let rowIndex := Z.of_nat (i / 2) in
             let rectX := if isLeftColumn then 50 else 50 + rectWidth + rectMargin in
             let rectY := legendStartY + rowIndex * (rectHeight + rectMargin) in
             [ LegendRect rectX rectY rectWidth rectHeight (i mod length colors)%nat;
               LegendName (rectX + rectPadding) (rectY + rectHeight / 2) (project p);
               LegendPercent (rectX + rectWidth - rectPadding) (rectY + rectHeight / 2)
                 (Num.round
                    (Double.binary64
                       (Num.mul (Double.binary64 (Num.div (p_amount p) totalXP))
                                (Fin 100))))
                 (p_amount p) ])
          projectXP).

(** [projectXP.reduce((sum, project) => sum + project.amount, 0)] *)
Definition totalOf (projectXP : list Project) : number :=
  fold_left (fun sum p => Num.add sum (p_amount p)) projectXP (Fin 0).

(** [renderProjectPieChart(xpByPath)] for a container that exists;
    the argument lists [Object.entries(xpByPath)]. *)
Definition renderProjectPieChart (xpByPath : list (string * Z)) : Scene :=
  let projectXP := List.map toProject (List.filter isModuleProject xpByPath) in
  if Nat.eqb (length projectXP) 0
  then mkScene None [Placeholder "No XP data available for Bahrain module projects"]
  else
    let projectXP := sortBy keepOrder projectXP in
    let totalXP := totalOf projectXP in
    let projectCount := length projectXP in
    mkScene (Some (totalHeight projectCount))
      ([ Title 500 40 "Project XP Distribution";
         Defs (List.map (fun color => (color, darkenColor color 20)) colors) ]
       ++ drawSlices totalXP (Num.div (Num.opp Math_PI) (Fin 2)) 0 projectXP
       ++ [ CenterCircle centerX centerY innerRadius;
            TotalText centerX (centerY - 15);
            TotalValue centerX (centerY + 15) totalXP;
            Tooltip centerX (centerY + radius + 30);
            ProjectsTitle 500 (legendStartY - 10) ]
       ++ drawLegend totalXP projectXP).

(** The slices of a list of primitives, in order. *)
Definition slices (l : list Primitive) : list Slice :=
  omap (fun x => match x with ArcPath s => Some s | _ => None end) l.

Definition placeholders (l : list Primitive) : list string :=
  omap (fun x => match x with Placeholder m => Some m | _ => None end) l.


Definition endOf (s : Slice) : number :=
  match s_d s with
  | _ :: _ :: A _ _ _ p :: _ => pt_angle p
  | _ => NaN
  end.


End ProfileView.

(** ** More of the source files

    The functions of the same files that the modules above leave out. *)

(** [x || 0] on a number: [NaN] and zero are falsy. *)
Definition num_or_zero (a : number) : number :=
  match a with
  | NaN => Fin 0
  | Fin q => if Num.Qzero_b q then Fin 0 else a
  | _ => a
  end.

(** *** Property order of an object

    [Object.keys] lists the keys that are array indices first, in ascending
    numeric order, then the other string keys in the order they were
    created. An object is kept as the list of its entries in creation order. *)

Module JSObject.

Definition isDigit (c : ascii) : bool :=
  let n := Z.of_N (Ascii.N_of_ascii c) in (48 <=? n) && (n <=? 57).

Fixpoint decimalValue (s : string) (acc : Z) : option Z :=
  match s with
  | EmptyString => Some acc
  | String c s' =>
      if isDigit c
      then decimalValue s' (acc * 10 + (Z.of_N (Ascii.N_of_ascii c) - 48))
      else None
  end.

(** An array index is the canonical decimal form of an integer below
    [2^32 - 1]. *)
Definition arrayIndex (s : string) : option Z :=
  match s with
  | EmptyString => None
  | String c rest =>
      if Ascii.eqb c "0" && negb (String.eqb rest "") then None
      else
        match decimalValue s 0 with
        | Some v => if v <? 4294967295 then Some v else None
        | None => None
        end
  end.

Definition isArrayIndex (s : string) : bool :=
  match arrayIndex s with
  | Some _ => true
  | None => false
  end.

(** [Object.keys(o)] *)
Definition keys {V} (o : list (string * V)) : list string :=
  let ks := List.map fst o in
  List.map snd
    (sortBy (fun a b : Z * string => a.1 <=? b.1)
            (omap (fun k => (fun v => (v, k)) <$> arrayIndex k) ks))
  ++ List.filter (fun k => negb (isArrayIndex k)) ks.

(** [o[k]] *)
Fixpoint get {V} (o : list (string * V)) (k : string) : option V :=
  match o with
  | [] => None
  | (k', v) :: o' => if String.eqb k' k then Some v else get o' k
  end.

End JSObject.

(** *** models/User.js: [getPassFailRatio] *)

Module UserRatio.

(** [total > 0 ? passed / total : 0] *)
Definition getPassFailRatio (this : User.t) : number :=
  let passed := length (List.filter succeeded (User.u_progressesByPath this)) in
  let total := length (User.u_progressesByPath this) in
  if (0 <? total)%nat then Num.div (Num.ofNat passed) (Num.ofNat total) else Fin 0.

End UserRatio.

(** *** services/GraphQLService.js: [processAuditStats] *)

Module LegacyStats.

Record AuditStats : Type := mkAuditStats {
  upVotes : Z;
  downVotes : Z;
  ratio : number
}.

(** [transactions.filter(t => t.type === ty).reduce((sum, t) => sum + t.amount, 0)] *)
Definition sumOfType (ty : string) (transactions : list Transaction) : Z :=
  fold_left (fun sum t => sum + amount t)
            (List.filter (fun t => String.eqb (type t) ty) transactions) 0.

(** [ratio: upVotes / (upVotes + downVotes) || 0] *)
Definition processAuditStats (transactions : list Transaction) : AuditStats :=
  let up := sumOfType "up" transactions in
  let down := sumOfType "down" transactions in
  mkAuditStats up down
    (num_or_zero (Num.div (Num.ofZ up) (Num.add (Num.ofZ up) (Num.ofZ down)))).

End LegacyStats.

(** *** utils/SVGUtils.js: the other charts *)

Module SVGCharts.

Import SVGUtils.

(** [config.charts.dimensions] and [config.charts.colors] *)
Definition config_barWidth : number := Fin 50.
Definition config_barHeight : number := Fin 12.
Definition config_success : string := "#2ecc71".
Definition config_error : string := "#e74c3c".

(** [createBar(x, y, width, height, color)] *)
Definition createBar (x y width height : number) (color : string) : Rect :=
  mkRect x y width height color.

(** [createProgressChart(progressStats, containerId)]: the passed bar and
    the failed bar. *)
Definition createProgressChart (passRate : number) : list Rect :=
  [ createBar (Fin 10) (Fin 10) (Num.mul passRate (Fin 80)) (Fin 10) config_success;
    createBar (Num.add (Fin 10) (Num.mul passRate (Fin 80))) (Fin 10)
              (Num.mul (Num.sub (Fin 1) passRate) (Fin 80)) (Fin 10) config_error ].

(** The children of the svg of [createPassFailChart]: two rects and the
    percentage shown by the text. *)
Record PassFailChart : Type := mkPassFailChart {
  rect1 : Rect;
  rect2 : Rect;
  percent : number
}.

Definition passFailRatio (progressData : list ProgressEntry) : number :=
  let passed := length (List.filter succeeded progressData) in
  let total := length progressData in
  if (0 <? total)%nat then Num.div (Num.ofNat passed) (Num.ofNat total) else Fin 0.

Definition createPassFailChart (progressData : list ProgressEntry) : PassFailChart :=
  let ratio := passFailRatio progressData in
  mkPassFailChart
    (mkRect (Fin 10) (Fin 10) (Num.mul ratio config_barWidth) config_barHeight
            config_success)
    (mkRect (Num.add (Fin 10) (Num.mul ratio config_barWidth)) (Fin 10)
            (Num.mul (Num.sub (Fin 1) ratio) config_barWidth) config_barHeight
            config_error)
    (Num.round (Double.binary64 (Num.mul (Double.binary64 ratio) (Fin 100)))).

(** [createProjectDistribution]: the counters of a category. The object
    [categories] is kept as the list of its own entries in creation order. *)
Record Category : Type := mkCategory {
  c_total : Z;
  c_completed : Z
}.

(** [project.path.split('/')[1] || 'Other'] *)
Definition categoryOf (p : ProgressEntry) : string :=
  or_string (JSString.split "/" (pr_path p) !! 1%nat) "Other".

(** The body of the first [forEach] for a category that is not inherited:
    the category is created with zero counters when it is not there, then
    counted. *)
Fixpoint countOwn (category : string) (completed : bool)
         (categories : list (string * Category)) : list (string * Category) :=
  match categories with
  | [] => [(category, mkCategory (0 + 1) (if completed then 0 + 1 else 0))]
  | (k, c) :: rest =>
      if String.eqb k category
      then (k, mkCategory (c_total c + 1)
                          (if completed then c_completed c + 1 else c_completed c))
           :: rest
      else (k, c) :: countOwn category completed rest
  end.

(** The body of the first [forEach]. Under a property name of
    [Object.prototype] the read [categories[category]] yields the inherited
    function or object, which is truthy: no entry is created, and the
    increments go to properties of that inherited value, not to
    [categories]. *)
Definition count (category : string) (completed : bool)
           (categories : list (string * Category)) : list (string * Category) :=
  if inherited category then categories else countOwn category completed categories.

Definition groupByCategory (projectDetails : list ProgressEntry)
  : list (string * Category) :=
  fold_left (fun categories p => count (categoryOf p) (succeeded p) categories)
            projectDetails [].

(** A group of the chart: the bar, the category label under it and the count
    above it. *)
Record CategoryBar : Type := mkCategoryBar {
  cb_bar : Rect;
  cb_label : string;
  cb_labelX : number;
  cb_countY : number;
  cb_count : Z
}.

(** The second [forEach], over [Object.keys(categories)]. *)
Definition createProjectDistribution (projectDetails : list ProgressEntry)
  : list CategoryBar :=
  let categories := groupByCategory projectDetails in
  let categoryNames := JSObject.keys categories in
  let barWidth := Num.div (Fin 160) (Num.ofNat (length categoryNames)) in
  let spacing := Fin 5 in
  omap id
    (imap (fun index category =>
             c ← JSObject.get categories category;
             let x := Num.add (Fin 20)
                              (Num.mul (Num.ofNat index) (Num.add barWidth spacing)) in
             let completedHeight :=
               Num.mul (Num.div (Num.ofZ (c_completed c)) (Num.ofZ (c_total c)))
                       (Fin 60) in
             Some (mkCategoryBar
                     (mkRect x (Num.sub (Fin 70) completedHeight) barWidth
                             completedHeight "#2ecc71")
                     category
                     (Num.add x (Num.div barWidth (Fin 2)))
                     (Num.sub (Fin 65) completedHeight)
                     (c_completed c)))
          categoryNames).

End SVGCharts.

(** *** models/Auth.js: the shape of a token *)

Module Auth.

(** [/^[A-Za-z0-9_-]+$/] on one character. *)
Definition jwtChar (c : ascii) : bool :=
  let n := Z.of_N (Ascii.N_of_ascii c) in
  ((65 <=? n) && (n <=? 90)) || ((97 <=? n) && (n <=? 122))
  || ((48 <=? n) && (n <=? 57)) || (n =? 95) || (n =? 45).

Fixpoint allChars (f : ascii -> bool) (s : string) : bool :=
  match s with
  | EmptyString => true
  | String c s' => f c && allChars f s'
  end.

(** [part && part.match(/^[A-Za-z0-9_-]+$/)] *)
Definition partOk (part : string) : bool :=
  negb (String.eqb part "") && allChars jwtChar part.

(** [isAuthenticated()] for the content of [localStorage.getItem('token')]. *)
Definition isAuthenticated (token : option string) : bool :=
  match token with
  | None => false
  | Some t =>
      if String.eqb t "" then false
      else
        let parts := JSString.split "." t in
        Nat.eqb (length parts) 3 && forallb partOk parts
  end.

(** The check of [login] on the cleaned token:
    [!cleanToken || cleanToken.split('.').length !== 3] rejects. *)
Definition tokenStructureOk (cleanToken : string) : bool :=
  negb (String.eqb cleanToken "")
  && Nat.eqb (length (JSString.split "." cleanToken)) 3.

End Auth.

(** *** Errors on the way to the profile

    [GraphQLService.query] and [ProfileController.handleError]. The reply of
    the transport is an input: the request is rejected or its body is not
    JSON (an error with a message), or a body arrives with its [errors]
    entry, a non-empty list of messages when present, and its [data]. *)

Module Session.

Inductive Reply : Type :=
| Rejected (message : string)
| Body (errors : option (string * list string)) (data : option ResponseData).

(** What a call produces: a value or an [Error] with its message. *)
Inductive Outcome (A : Type) : Type :=
| Returned (a : A)
| Raised (message : string).
Arguments Returned {A} a.
Arguments Raised {A} message.

(** The outcome of [query] and the number of [auth:logout] events
    [handleAuthError] dispatched on the way. The errors thrown inside [try]
    are rethrown with the prefix; the missing token is thrown before it. *)
Definition query (token : option string) (reply : Reply)
  : nat * Outcome (option ResponseData) :=
  match or_string token "" with
  | EmptyString => (1%nat, Raised "No authentication token found")
  | _ =>
      match reply with
      | Rejected message => (0%nat, Raised ("GraphQL query failed: " ++ message))
      | Body (Some (first, _)) _ =>
          ((if JSString.includes "JWT" first then 1 else 0)%nat,
           Raised ("GraphQL query failed: " ++ first))
      | Body None data => (0%nat, Returned data)
      end
  end.

(** What [handleError] does with an error. *)
Inductive Action : Type :=
| LogoutNow
| ShowErrorPanel
| LogoutAfter (milliseconds : Z).

Definition handleError (message : string) : list Action :=
  if JSString.includes "authentication" message || JSString.includes "JWT" message
  then [LogoutNow]
  else [ShowErrorPanel; LogoutAfter 2000].

End Session.

(** ** Vocabulary of the statements and sample inputs *)

(** The sum of the values of a dictionary, [None] when it is not a number
    because one of the values is a string. *)
Definition sumValues (m : gmap string Value) : option Z :=
  map_fold (fun _ v s => match v with
                         | VNumber z => (fun a => a + z) <$> s
                         | VString => None
                         end)
           (Some 0) m.

(** Votes of 30 up and 10 down next to an xp correction of -5. *)
Definition sampleVotes : list Transaction :=
  [ mkTransaction "up" 30 1 None 20;
    mkTransaction "down" 10 2 None 20;
    mkTransaction "xp" (-5) 3 (Some "/a") 20 ].

(** 23 succeeded progress rows followed by 17 failed ones. *)
Definition progress23of40 : list ProgressEntry :=
  repeat (mkProgressEntry "/bahrain/bh-module/x" true 1) 23
  ++ repeat (mkProgressEntry "/bahrain/bh-module/x" false 1) 17.

(** One xp transaction filed under [__proto__], and one under
    [constructor]. *)
Definition protoLog : list Transaction :=
  [mkTransaction "xp" 50 0 (Some "__proto__") 20].

Definition constructorLog : list Transaction :=
  [mkTransaction "xp" 30 0 (Some "constructor") 20].

(** [t] is an element of [l] of greatest amount. *)
Definition greatest (l : list Transaction) (t : Transaction) : Prop :=
  t ∈ l /\ forall t', t' ∈ l -> amount t' <= amount t.

(** A user record without its [transactions]. *)
Definition userWithoutTransactions : RawUser :=
  mkRawUser (Some "ada") None None None None None None None
            (Some []) None (Some []) (Some []).

(** A timeline entry of a given amount. *)
Definition entryOf (a : Z) : GraphQLService.TimelineEntry :=
  GraphQLService.mkTimelineEntry 0 a 20.

(** The one project of this dictionary earned 400 bytes, 0 kB once rounded. *)
Definition smallProject : list (string * Z) := [("/bahrain/bh-module/foo", 400)].


(** The value of a finite number of the Standard Library's specification
    of IEEE 754 arithmetic. *)
Definition specValue (f : spec_float) : Q :=
  match f with
  | S754_finite s m e => ((if s then - (1) else 1) * inject_Z (Zpos m) * Double.pow2 e)%Q
  | _ => 0%Q
  end.

(** The percentage shown for weight [w] of a total [S]:
    [Math.round(w / S * 100)] on binary64 numbers. *)
Definition percentOf (w S : Q) : Z :=
  Qfloor (Double.fl (Double.fl (w / S) * 100) + (1 # 2)).


(** A hex color: [#] and six hexadecimal digits. *)
Definition isHexChar (c : ascii) : bool :=
  match JSString.hexValue c with
  | Some _ => true
  | None => false
  end.

Definition isHexColor (color : string) : bool :=
  match color with
  | String c0 (String c1 (String c2 (String c3 (String c4 (String c5
      (String c6 EmptyString)))))) =>
      Ascii.eqb c0 "#" && isHexChar c1 && isHexChar c2 && isHexChar c3
      && isHexChar c4 && isHexChar c5 && isHexChar c6
  | _ => false
  end.

(** The red, green and blue channels of a color, read the way [darkenColor]
    reads them. *)
Definition channels (color : string) : Z * Z * Z :=
  let num := ProfileView.colorNumber color in
  (ProfileView.channelR num, ProfileView.channelG num, ProfileView.channelB num).

(** The six digits [toString(16)] prints after the leading [1] of
    [0x1000000 + n]. *)
Definition digits6 (n : Z) : string :=
  String (JSString.hexDigit (n / 16 / 16 / 16 / 16 / 16 mod 16))
    (String (JSString.hexDigit (n / 16 / 16 / 16 / 16 mod 16))
      (String (JSString.hexDigit (n / 16 / 16 / 16 mod 16))
        (String (JSString.hexDigit (n / 16 / 16 mod 16))
          (String (JSString.hexDigit (n / 16 mod 16))
            (String (JSString.hexDigit (n mod 16)) EmptyString))))).

(** The transactions of the end-to-end scenario, and a reordering of them. *)
Definition sampleLog : list Transaction :=
  [ mkTransaction "xp" 50 1 (Some "/a/b") 20;
    mkTransaction "xp" 30 2 (Some "/a/c") 20;
    mkTransaction "level" 5 2 None 20;
    mkTransaction "level" 7 3 None 20 ].

Definition sampleLogReordered : list Transaction :=
  [ mkTransaction "level" 7 3 None 20;
    mkTransaction "xp" 50 1 (Some "/a/b") 20;
    mkTransaction "xp" 30 2 (Some "/a/c") 20;
    mkTransaction "level" 5 2 None 20 ].


(** The key under which [groupXPByPath] files a transaction, and the test
    that an xp transaction is filed under [k]. *)
Definition groupKey (t : Transaction) : string := or_string (path t) "Unknown".

Definition inGroup (k : string) (t : Transaction) : bool :=
  is_xp t && String.eqb (groupKey t) k.

(** The sum of the amounts of a list of transactions. *)
Definition amountSum (l : list Transaction) : Z :=
  fold_left (fun sum t => sum + amount t) l 0.


(** The outcome is a value. *)
Definition returns {A} (r : Result A) : Prop := exists a, r = Ok a.

(** [a] and [b] are finite and [a] is not below [b]. *)
Definition finiteGe (a b : number) : Prop :=
  match a, b with
  | Fin x, Fin y => (y <= x)%Q
  | _, _ => False
  end.

(** The rectangles of the legend of a scene, as (x, y, width, height). *)
Definition legendRects (l : list ProfileView.Primitive) : list (Z * Z * Z * Z) :=
  omap (fun x => match x with
                 | ProfileView.LegendRect x y w h _ => Some (x, y, w, h)
                 | _ => None
                 end) l.

(** Two rectangles have no interior point in common. *)
Definition disjointRects (r r' : Z * Z * Z * Z) : Prop :=
  let '(x, y, w, h) := r in
  let '(x', y', w', h') := r' in
  x + w <= x' \/ x' + w' <= x \/ y + h <= y' \/ y' + h' <= y.

(** The place of the i-th rectangle of the legend. *)
Definition legendSlot (i : nat) : Z * Z * Z * Z :=
  (if Nat.eqb (i mod 2) 0 then 50
   else 50 + ProfileView.rectWidth + ProfileView.rectMargin,
   ProfileView.legendStartY
   + Z.of_nat (i / 2) * (ProfileView.rectHeight + ProfileView.rectMargin),
   ProfileView.rectWidth, ProfileView.rectHeight).

(** A character a stored token may hold: one of the token alphabet or the
    dot between its parts. *)
Definition tokenChar (c : ascii) : bool := Auth.jwtChar c || Ascii.eqb c ".".

(** [a.b.c] *)
Definition dotted (a b c : string) : string :=
  String.append a (String "." (String.append b (String "." c))).

(** The projects of a category of the distribution chart, and the counters
    the chart should hold for it. *)
Definition inCategory (k : string) (p : ProgressEntry) : bool :=
  String.eqb (SVGCharts.categoryOf p) k.

Definition categoryProjects (k : string) (projectDetails : list ProgressEntry)
  : list ProgressEntry :=
  List.filter (inCategory k) projectDetails.

Definition categoryCounts (projectDetails : list ProgressEntry) (k : string)
  : SVGCharts.Category :=
  SVGCharts.mkCategory
    (Z.of_nat (length (categoryProjects k projectDetails)))
    (Z.of_nat (length (List.filter succeeded (categoryProjects k projectDetails)))).

Definition sampleProgress : list ProgressEntry :=
  [mkProgressEntry "/bahrain/bh-module/go-reloaded" true 1;
   mkProgressEntry "/bahrain/bh-piscine/quest-01" false 1;
   mkProgressEntry "/bahrain/bh-module/ascii-art" false 1].

(** Two lists of two elements are related when their elements are. *)
Ltac pairwise_eq := constructor 2; [|constructor 2; [|constructor 1]].

(** * Properties *)

(** ** Rounding to binary64 *)

Section DoubleFacts.

Import Double.

Lemma pow2_pos (e : Z) : (0 < pow2 e)%Q.
Proof. apply Qpower_0_lt. reflexivity. Qed.

Lemma pow2_plus (a b : Z) : (pow2 (a + b) == pow2 a * pow2 b)%Q.
Proof. apply Qpower_plus. intros H. discriminate H. Qed.

Lemma pow2_le (a b : Z) : a <= b -> (pow2 a <= pow2 b)%Q.
Proof. intros H. apply Qpower_le_compat_l; [exact H | discriminate]. Qed.

Lemma pow2_lt_inv (a b : Z) : (pow2 a < pow2 b)%Q -> a < b.
Proof. intros H. apply (Qpower_lt_compat_l_inv 2); [exact H | reflexivity]. Qed.

Lemma pow2_Z (e : Z) : 0 <= e -> (inject_Z (2 ^ e) == pow2 e)%Q.
Proof. intros H. apply (Zpower_Qpower 2 e H). Qed.

Lemma log2_bounds (n : Z) :
  0 < n -> (pow2 (Z.log2 n) <= inject_Z n)%Q /\ (inject_Z n < pow2 (Z.log2 n + 1))%Q.
Proof.
  intros Hn. destruct (Z.log2_spec n Hn) as [Hlo Hhi].
  pose proof (Z.log2_nonneg n) as H0.
  rewrite <- (pow2_Z (Z.log2 n)) by lia.
  rewrite <- (pow2_Z (Z.log2 n + 1)) by lia.
  rewrite <- Zle_Qle, <- Zlt_Qlt. replace (Z.succ (Z.log2 n)) with (Z.log2 n + 1) in Hhi by lia.
  split; assumption.
Qed.

Lemma ilog2_spec (q : Q) :
  (0 < q)%Q -> (pow2 (ilog2 q) <= q)%Q /\ (q < pow2 (ilog2 q + 1))%Q.
Proof.
  intros Hq. destruct q as [n d]. unfold ilog2. cbn [Qnum Qden].
  assert (Hn : 0 < n) by (unfold Qlt in Hq; cbn in Hq; lia).
  destruct (log2_bounds n Hn) as [Hn1 Hn2].
  destruct (log2_bounds (Zpos d) (Pos2Z.is_pos d)) as [Hd1 Hd2].
  set (a := Z.log2 n) in *. set (b := Z.log2 (Zpos d)) in *.
  assert (Hq' : (n # d == inject_Z n / inject_Z (Zpos d))%Q).
  { unfold Qeq, Qdiv, Qmult, Qinv, inject_Z. cbn. lia. }
  assert (HD : (0 < inject_Z (Zpos d))%Q) by reflexivity.
  assert (Hmul : ((n # d) * inject_Z (Zpos d) == inject_Z n)%Q).
  { rewrite Hq'. field. lra. }
  destruct (Qle_bool (pow2 (a - b)) (n # d)) eqn:E.
  - apply Qle_bool_iff in E. split; [exact E|].
    apply (Qmult_lt_r _ _ (inject_Z (Zpos d)) HD). rewrite Hmul.
    eapply Qlt_le_trans; [exact Hn2|].
    replace (a + 1) with ((a - b + 1) + b) by lia. rewrite pow2_plus.
    apply Qmult_le_l; [apply pow2_pos | exact Hd1].
  - assert (Hlt : ((n # d) < pow2 (a - b))%Q).
    { apply Qnot_le_lt. intros C. apply Qle_bool_iff in C. congruence. }
    replace (a - b - 1 + 1) with (a - b) by lia. split; [|exact Hlt].
    apply (Qmult_le_r _ _ (inject_Z (Zpos d)) HD). rewrite Hmul.
    eapply Qle_trans; [|exact Hn1].
    replace a with ((a - b - 1) + (b + 1)) at 2 by lia. rewrite pow2_plus.
    apply Qmult_le_l; [apply pow2_pos | apply Qlt_le_weak; exact Hd2].
Qed.

Lemma ilog2_mono (p q : Q) : (0 < p)%Q -> (p <= q)%Q -> ilog2 p <= ilog2 q.
Proof.
  intros Hp Hpq. assert (Hq : (0 < q)%Q) by lra.
  destruct (ilog2_spec p Hp) as [H1 _]. destruct (ilog2_spec q Hq) as [_ H2].
  assert (H : ilog2 p < ilog2 q + 1) by (apply pow2_lt_inv; lra). lia.
Qed.

Lemma rne_bounds (x : Q) : Qfloor x <= rne x <= Qfloor x + 1.
Proof.
  unfold rne. destruct (Qcompare _ _); [destruct (Z.even _)| |]; lia.
Qed.


Lemma rne_mono (x y : Q) : (x <= y)%Q -> rne x <= rne y.
Proof.
  intros Hxy. pose proof (Qfloor_resp_le x y Hxy) as Hf.
  destruct (Z.eq_dec (Qfloor x) (Qfloor y)) as [E|E].
  - unfold rne. rewrite <- E.
    destruct (Qcompare_spec (x - inject_Z (Qfloor x)) (1 # 2)) as [E1|E1|E1];
      destruct (Qcompare_spec (y - inject_Z (Qfloor x)) (1 # 2)) as [E2|E2|E2];
      try lra; try lia; destruct (Z.even (Qfloor x)); lia.
  - pose proof (rne_bounds x). pose proof (rne_bounds y). lia.
Qed.

Lemma rne_Z (n : Z) : rne (inject_Z n) = n.
Proof.
  unfold rne. rewrite Qfloor_Z.
  destruct (Qcompare_spec (inject_Z n - inject_Z n) (1 # 2)) as [E|E|E];
    [lra | reflexivity | lra].
Qed.

Lemma exponent_mono (p q : Q) : (0 < p)%Q -> (p <= q)%Q -> exponent p <= exponent q.
Proof. intros Hp Hpq. unfold exponent. pose proof (ilog2_mono p q Hp Hpq). lia. Qed.

Lemma scaled (q : Q) (e : Z) : (q / pow2 e * pow2 e == q)%Q.
Proof. field. pose proof (pow2_pos e). lra. Qed.

Lemma nearest_upper (q : Q) : (0 < q)%Q -> (nearest q <= pow2 (exponent q + 53))%Q.
Proof.
  intros Hq. unfold nearest. set (e := exponent q).
  destruct (ilog2_spec q Hq) as [_ Hhi].
  assert (He : ilog2 q + 1 <= e + 53) by (unfold e, exponent; lia).
  assert (H : (q / pow2 e <= inject_Z (2 ^ 53))%Q).
  { apply Qle_shift_div_r; [apply pow2_pos|].
    rewrite (pow2_Z 53) by lia. rewrite <- pow2_plus.
    pose proof (pow2_le _ _ He). replace (53 + e) with (e + 53) by lia. lra. }
  apply rne_mono in H. rewrite rne_Z in H.
  rewrite (Z.add_comm e 53), pow2_plus, <- (pow2_Z 53) by lia.
  apply Qmult_le_compat_r; [|apply Qlt_le_weak, pow2_pos].
  rewrite <- Zle_Qle. exact H.
Qed.

Lemma nearest_lower (q : Q) :
  (0 < q)%Q -> -1074 < exponent q -> (pow2 (exponent q + 52) <= nearest q)%Q.
Proof.
  intros Hq He. unfold nearest. set (e := exponent q) in *.
  destruct (ilog2_spec q Hq) as [Hlo _].
  assert (He' : ilog2 q = e + 52) by (unfold e, exponent in *; lia).
  rewrite He' in Hlo.
  assert (H : (inject_Z (2 ^ 52) <= q / pow2 e)%Q).
  { apply Qle_shift_div_l; [apply pow2_pos|].
    rewrite (pow2_Z 52) by lia. rewrite <- pow2_plus.
    replace (52 + e) with (e + 52) by lia. exact Hlo. }
  apply rne_mono in H. rewrite rne_Z in H.
  rewrite (Z.add_comm e 52), pow2_plus, <- (pow2_Z 52) by lia.
  apply Qmult_le_compat_r; [|apply Qlt_le_weak, pow2_pos].
  rewrite <- Zle_Qle. exact H.
Qed.

Lemma nearest_mono (p q : Q) : (0 < p)%Q -> (p <= q)%Q -> (nearest p <= nearest q)%Q.
Proof.
  intros Hp Hpq. assert (Hq : (0 < q)%Q) by lra.
  pose proof (exponent_mono p q Hp Hpq) as He.
  destruct (Z.eq_dec (exponent p) (exponent q)) as [E|E].
  - unfold nearest. rewrite E.
    apply Qmult_le_compat_r; [|apply Qlt_le_weak, pow2_pos].
    rewrite <- Zle_Qle. apply rne_mono.
    apply Qle_shift_div_l; [apply pow2_pos|]. rewrite scaled. exact Hpq.
  - eapply Qle_trans; [apply (nearest_upper p Hp)|].
    eapply Qle_trans; [|apply (nearest_lower q Hq)].
    + apply pow2_le. lia.
    + unfold exponent in *. lia.
Qed.

Lemma nearest_nonneg (q : Q) : (0 < q)%Q -> (0 <= nearest q)%Q.
Proof.
  intros Hq. unfold nearest.
  apply Qmult_le_0_compat; [|apply Qlt_le_weak, pow2_pos].
  assert (H : (inject_Z 0 <= q / pow2 (exponent q))%Q).
  { apply Qle_shift_div_l; [apply pow2_pos|]. change (inject_Z 0) with 0%Q. lra. }
  apply rne_mono in H. rewrite rne_Z in H.
  change 0%Q with (inject_Z 0). rewrite <- Zle_Qle. exact H.
Qed.


Lemma fl_mono (p q : Q) : (p <= q)%Q -> (fl p <= fl q)%Q.
Proof.
  intros Hpq. unfold fl.
  destruct (Qcompare_spec p 0) as [Ep|Ep|Ep], (Qcompare_spec q 0) as [Eq|Eq|Eq];
    try lra.
  - apply nearest_nonneg, Eq.
  - pose proof (nearest_nonneg (- p)). lra.
  - assert (H : (nearest (- q) <= nearest (- p))%Q) by (apply nearest_mono; lra). lra.
  - pose proof (nearest_nonneg (- p)). pose proof (nearest_nonneg q). lra.
  - apply nearest_mono; lra.
Qed.





(** On the operations behind the percentages and the darkening amount,
    [fl] of the exact result is the result of the binary64 operation
    (precision 53, maximal exponent 1024) of the Standard Library's
    specification of IEEE 754. *)
Example fl_agrees_with_SpecFloat :
  let d := fun m : positive => S754_finite false m 0 in
  let div := SFdiv 53 1024 in
  let mul := SFmul 53 1024 in
  let c := div (d 255%positive) (d 100%positive) in
  let p50 := mul c (d 50%positive) in
  let p90 := mul c (d 90%positive) in
  let s23 := mul (div (d 23%positive) (d 40%positive)) (d 100%positive) in
  let s17 := mul (div (d 17%positive) (d 40%positive)) (d 100%positive) in
  let s13 := mul (div (d 1%positive) (d 3%positive)) (d 100%positive) in
  (fl (255 # 100) == specValue c)%Q
  /\ (fl (fl (255 # 100) * 50) == specValue p50)%Q
  /\ (fl (fl (255 # 100) * 90) == specValue p90)%Q
  /\ (fl (fl (23 # 40) * 100) == specValue s23)%Q
  /\ (fl (fl (17 # 40) * 100) == specValue s17)%Q
  /\ (fl (fl (1 # 3) * 100) == specValue s13)%Q.
Proof. vm_compute. repeat split. Qed.





End DoubleFacts.

(** ** Aggregation *)

Section Aggregation.

Import GraphQLService.

Lemma fold_add_shift (l : list Transaction) (a : Z) :
  fold_left (fun sum t => sum + amount t) l a
  = a + fold_left (fun sum t => sum + amount t) l 0.
Proof.
  revert a. induction l as [|t l IH]; intros a; simpl.
  - lia.
  - rewrite IH, (IH (0 + amount t)). lia.
Qed.

Lemma sumValues_empty : sumValues ∅ = Some 0.
Proof. unfold sumValues. apply map_fold_empty. Qed.

Lemma sumValues_insert_fresh (m : gmap string Value) (k : string) (v : Value) :
  m !! k = None ->
  sumValues (<[k := v]> m)
  = match v with
    | VNumber z => (fun a => a + z) <$> sumValues m
    | VString => None
    end.
Proof.
  intros Hk. unfold sumValues.
  rewrite map_fold_insert_L; [reflexivity | | exact Hk].
  intros j1 j2 [z1|] [z2|] [y|] _ _ _; cbn; try reflexivity. f_equal. lia.
Qed.

Lemma or_zero_Some (v : Z) : or_zero (Some v) = v.
Proof. simpl. destruct (v =? 0) eqn:E; [apply Z.eqb_eq in E|]; lia. Qed.

Lemma inherited_proto (k : string) : inherited k = false -> String.eqb k "__proto__" = false.
Proof.
  intros Hk. destruct (String.eqb_spec k "__proto__") as [->|]; [discriminate Hk | reflexivity].
Qed.

(** Writing [(acc[k] || 0) + a] under a key that is not inherited adds [a]
    to the sum of the values, whether the key was there or not. *)
Lemma sumValues_bump (m : gmap string Value) (k : string) (a s : Z) :
  inherited k = false -> sumValues m = Some s ->
  sumValues (assign m k (orZeroPlus m k a)) = Some (s + a).
Proof.
  intros Hk Hs. unfold assign, orZeroPlus. rewrite (inherited_proto k Hk), Hk.
  destruct (m !! k) as [[v|]|] eqn:E.
  - rewrite <- (insert_delete_id m k (VNumber v) E) in Hs.
    rewrite sumValues_insert_fresh in Hs by apply lookup_delete_eq.
    rewrite <- (insert_delete_eq m k).
    rewrite sumValues_insert_fresh by apply lookup_delete_eq.
    destruct (sumValues (delete k m)) as [s'|]; [|discriminate Hs].
    cbn [fmap option_fmap option_map] in Hs |- *. injection Hs as <-.
    rewrite or_zero_Some. f_equal. lia.
  - rewrite <- (insert_delete_id m k VString E) in Hs.
    rewrite sumValues_insert_fresh in Hs by apply lookup_delete_eq. discriminate Hs.
  - rewrite sumValues_insert_fresh by exact E. rewrite Hs.
    reflexivity.
Qed.

Lemma sumValues_fold {A} (key : A -> string) (amt : A -> Z) (l : list A) :
  forall (acc : gmap string Value) (s : Z),
    (forall x, x ∈ l -> inherited (key x) = false) ->
    sumValues acc = Some s ->
    sumValues (fold_left (fun acc x => assign acc (key x) (orZeroPlus acc (key x) (amt x)))
                         l acc)
    = Some (fold_left (fun sum x => sum + amt x) l s).
Proof.
  induction l as [|x l IH]; intros acc s Hl Hs; [exact Hs|].
  cbn [fold_left]. apply IH.
  - intros y Hy. apply Hl. right. exact Hy.
  - apply sumValues_bump; [apply Hl; left | exact Hs].
Qed.

Lemma filter_xp_elem (T : list Transaction) (t : Transaction) :
  t ∈ List.filter is_xp T <-> t ∈ T /\ is_xp t = true.
Proof. rewrite !list_elem_of_In. apply filter_In. Qed.

(** C1 as stated fails on a path that names a property of
    [Object.prototype]: the amount of a transaction whose path is
    [__proto__] is counted in the total and stored nowhere, and under
    [constructor] the dictionary holds a string. *)
Lemma xpByPath_proto_key_not_counted :
  groupXPByPath protoLog = ∅
  /\ calculateTotalXP protoLog = 50
  /\ sumValues (groupXPByPath protoLog) <> Some (calculateTotalXP protoLog)
  /\ groupXPByPath constructorLog !! "constructor" = Some VString
  /\ sumValues (groupXPByPath constructorLog) <> Some (calculateTotalXP constructorLog).
Proof.
  assert (H : groupXPByPath protoLog = ∅) by reflexivity.
  split; [exact H|]. split; [reflexivity|].
  split; [rewrite H, sumValues_empty; discriminate|].
  split; [reflexivity|]. vm_compute. discriminate.
Qed.

(** C1, amended. For every transaction list in which no xp transaction is
    filed under a property name of [Object.prototype], the values of
    [groupXPByPath] (the xp transactions grouped by path, with key "Unknown"
    for an absent or empty path) are numbers and sum to [calculateTotalXP]
    of the same list. *)
Theorem xpByPath_values_sum_to_totalXP (T : list Transaction) :
  (forall t, t ∈ T -> is_xp t = true ->
             inherited (or_string (path t) "Unknown") = false) ->
  sumValues (groupXPByPath T) = Some (calculateTotalXP T).
Proof.
  intros H. unfold groupXPByPath, calculateTotalXP.
  apply (sumValues_fold (fun t => or_string (path t) "Unknown") amount);
    [|apply sumValues_empty].
  intros t Ht. apply filter_xp_elem in Ht as [Hin Hxp]. exact (H t Hin Hxp).
Qed.

Lemma xpByPath_values_sum_to_totalXP_witness :
  sumValues (groupXPByPath sampleLog) = Some 80.
Proof.
  rewrite (xpByPath_values_sum_to_totalXP sampleLog); [reflexivity|].
  intros t Ht _. unfold sampleLog in Ht.
  repeat (apply elem_of_cons in Ht as [->|Ht]; [reflexivity|]). inversion Ht.
Defined.

(** *** The level sort *)

Lemma head_sortInsert (x : Transaction) (s : list Transaction) :
  head (sortInsert (fun a b => levelCompare a b <=? 0) x s)
  = match head s with
    | Some y => if amount y <=? amount x then Some x else Some y
    | None => Some x
    end.
Proof.
  destruct s as [|y s]; simpl; [reflexivity|].
  unfold levelCompare.
  destruct (amount y - amount x <=? 0) eqn:E1, (amount y <=? amount x) eqn:E2;
    try reflexivity; lia.
Qed.

Lemma head_sortBy_greatest (l : list Transaction) :
  match head (sortBy (fun a b => levelCompare a b <=? 0) l) with
  | Some t => greatest l t
  | None => l = []
  end.
Proof.
  induction l as [|x l IH]; simpl; [reflexivity|].
  rewrite head_sortInsert.
  destruct (head (sortBy (fun a b => levelCompare a b <=? 0) l)) as [y|].
  - destruct IH as [Hin Hmax].
    destruct (amount y <=? amount x) eqn:E.
    + apply Z.leb_le in E. split; [left|].
      intros t' Ht'. apply elem_of_cons in Ht' as [->|Ht']; [lia|].
      specialize (Hmax t' Ht'). lia.
    + apply Z.leb_gt in E. split; [right; exact Hin|].
      intros t' Ht'. apply elem_of_cons in Ht' as [->|Ht']; [lia|].
      exact (Hmax t' Ht').
  - subst l. split; [left|].
    intros t' Ht'. apply elem_of_cons in Ht' as [->|Ht']; [lia|].
    inversion Ht'.
Qed.

Lemma getCurrentLevel_none (T : list Transaction) :
  List.filter is_level T = [] -> getCurrentLevel T = 0.
Proof. intros H. unfold getCurrentLevel. rewrite H. reflexivity. Qed.

Lemma getCurrentLevel_greatest (T : list Transaction) :
  List.filter is_level T <> [] ->
  exists t, greatest (List.filter is_level T) t /\ getCurrentLevel T = amount t.
Proof.
  intros Hne. unfold getCurrentLevel.
  pose proof (head_sortBy_greatest (List.filter is_level T)) as H.
  destruct (head (sortBy _ (List.filter is_level T))) as [t|].
  - exists t. split; [exact H|]. apply or_zero_Some.
  - contradiction.
Qed.

Lemma filter_level_elem (T : list Transaction) (t : Transaction) :
  t ∈ List.filter is_level T <-> t ∈ T /\ is_level t = true.
Proof. rewrite !list_elem_of_In. apply filter_In. Qed.

Lemma filter_level_nonempty (T : list Transaction) (t : Transaction) :
  t ∈ T -> is_level t = true -> List.filter is_level T <> [].
Proof.
  intros Hin Hl Hnil.
  assert (H : t ∈ List.filter is_level T) by (apply filter_level_elem; auto).
  rewrite Hnil in H. inversion H.
Qed.

(** C2. [getCurrentLevel] is 0 when the list holds no transaction of type
    'level'; otherwise it is the amount of a 'level' transaction of the list
    and no 'level' transaction of the list has a greater amount; and it takes
    the same value on every permutation of the list. *)
Theorem getCurrentLevel_max_permutation_invariant (T T' : list Transaction) :
  ((forall t, t ∈ T -> is_level t = false) -> getCurrentLevel T = 0)
  /\ ((exists t, t ∈ T /\ is_level t = true) ->
       (exists t, t ∈ T /\ is_level t = true /\ amount t = getCurrentLevel T)
       /\ (forall t, t ∈ T -> is_level t = true -> amount t <= getCurrentLevel T))
  /\ (T ≡ₚ T' -> getCurrentLevel T = getCurrentLevel T').
Proof.
  assert (Hnone : forall L, (forall t, t ∈ L -> is_level t = false) ->
                            List.filter is_level L = []).
  { intros L H. destruct (List.filter is_level L) as [|t l] eqn:E; [reflexivity|].
    assert (Ht : t ∈ List.filter is_level L) by (rewrite E; left).
    apply filter_level_elem in Ht as [Hin Hl]. rewrite (H t Hin) in Hl. discriminate. }
  assert (Hmax : forall L t0, t0 ∈ L -> is_level t0 = true ->
            (exists t, t ∈ L /\ is_level t = true /\ amount t = getCurrentLevel L)
            /\ (forall t, t ∈ L -> is_level t = true -> amount t <= getCurrentLevel L)).
  { intros L t0 Hin0 Hl0.
    destruct (getCurrentLevel_greatest L (filter_level_nonempty L t0 Hin0 Hl0))
      as (m & [Hm Hge] & ->).
    apply filter_level_elem in Hm as [Hm1 Hm2]. split.
    - exists m. auto.
    - intros t Hin Hl. apply Hge. apply filter_level_elem. auto. }
  split; [|split].
  - intros H. apply getCurrentLevel_none, Hnone, H.
  - intros (t0 & Hin0 & Hl0). exact (Hmax T t0 Hin0 Hl0).
  - intros HP.
    destruct (List.filter is_level T) as [|t0 l0] eqn:E.
    + rewrite (getCurrentLevel_none T E).
      symmetry. apply getCurrentLevel_none, Hnone.
      intros t Hin. destruct (is_level t) eqn:Hl; [|reflexivity].
      assert (Ht : t ∈ List.filter is_level T).
      { apply filter_level_elem. split; [rewrite HP; exact Hin | exact Hl]. }
      rewrite E in Ht. inversion Ht.
    + assert (Ht0 : t0 ∈ List.filter is_level T) by (rewrite E; left).
      apply filter_level_elem in Ht0 as [Hin0 Hl0].
      destruct (Hmax T t0 Hin0 Hl0) as [(m & Hm & Hml & Hmv) Hub].
      assert (Hin0' : t0 ∈ T') by (rewrite <- HP; exact Hin0).
      destruct (Hmax T' t0 Hin0' Hl0) as [(m' & Hm' & Hml' & Hmv') Hub'].
      assert (amount m <= getCurrentLevel T').
      { apply Hub'; [rewrite <- HP; exact Hm | exact Hml]. }
      assert (amount m' <= getCurrentLevel T).
      { apply Hub; [rewrite HP; exact Hm' | exact Hml']. }
      lia.
Qed.

Lemma getCurrentLevel_max_permutation_invariant_witness :
  getCurrentLevel [] = 0
  /\ (forall t, t ∈ sampleLog -> is_level t = true -> amount t <= getCurrentLevel sampleLog)
  /\ getCurrentLevel sampleLog = getCurrentLevel sampleLogReordered.
Proof.
  split; [|split].
  - destruct (getCurrentLevel_max_permutation_invariant [] []) as (H & _ & _).
    apply H. intros t Ht. inversion Ht.
  - destruct (getCurrentLevel_max_permutation_invariant sampleLog sampleLogReordered)
      as (_ & H & _).
    apply H. exists (mkTransaction "level" 5 2 None 20). split; [|reflexivity].
    do 2 right. left.
  - destruct (getCurrentLevel_max_permutation_invariant sampleLog sampleLogReordered)
      as (_ & _ & H).
    apply H. unfold sampleLog, sampleLogReordered.
    apply (Permutation_app_comm [_; _; _] [_]).
Defined.

(** *** The user model *)

(** C9. The constructor of [User] sets [level] to the amount of the first
    element of the supplied transactions, whatever its type, and to 0 when
    there is none; the value can differ from the greatest amount among the
    'level' transactions. *)
Theorem User_level_is_first_amount :
  (forall userData : RawUser,
      User.level (User.constructor userData)
      = match transactions userData with
        | Some (t :: _) => amount t
        | _ => 0
        end)
  /\ (exists (userData : RawUser) (T : list Transaction),
         transactions userData = Some T
         /\ User.level (User.constructor userData) <> getCurrentLevel T).
Proof.
  split.
  - intros userData. unfold User.constructor; simpl.
    destruct (transactions userData) as [[|t l]|]; simpl; try reflexivity.
    apply (or_zero_Some (amount t)).
  - exists (mkRawUser None None None None None None None None None
              (Some [mkTransaction "xp" 50 1 (Some "/a/b") 20;
                     mkTransaction "level" 5 2 None 20])
              None None).
    eexists. split; [reflexivity|]. vm_compute. discriminate.
Qed.

(** The deprecated [processUserData] computes [level] the same way. *)
Lemma processUserData_level (data : ResponseData) (profile : LegacyProfile) :
  processUserData data = Ok profile ->
  exists userData,
    firstUser (Some data) = Some userData
    /\ l_level profile = match transactions userData with
                         | Some (t :: _) => amount t
                         | _ => 0
                         end.
Proof.
  unfold processUserData, firstUser. intros H.
  destruct (user data) as [users|]; [|discriminate H]. cbn in H.
  destruct (head users) as [u|]; [|discriminate H].
  exists u. split; [reflexivity|].
  destruct (xps u) as [xs|]; [|discriminate H]. cbn in H.
  destruct (progressesByPath u) as [prs|]; [|discriminate H]. cbn in H.
  destruct (transactions u) as [[|t ts]|]; [| |discriminate H]; cbn in H;
    injection H as <-; cbn [l_level]; [reflexivity | apply (or_zero_Some (amount t))].
Qed.

(** The end-to-end scenario: totals, groups, level and timeline of the
    sample log. *)
Example aggregate_sampleLog :
  calculateTotalXP sampleLog = 80
  /\ groupXPByPath sampleLog !! "/a/b" = Some (VNumber 50)
  /\ groupXPByPath sampleLog !! "/a/c" = Some (VNumber 30)
  /\ size (groupXPByPath sampleLog) = 2%nat
  /\ getCurrentLevel sampleLog = 7
  /\ List.map tl_amount (createTimeline sampleLog) = [50; 30].
Proof. vm_compute. repeat split. Qed.

Lemma accumulate_last (l : list Transaction) (a : Z) :
  l <> [] ->
  User.value <$> last (User.accumulate a l)
  = Some (a + fold_left (fun sum t => sum + amount t) l 0).
Proof.
  revert a. induction l as [|t l IH]; intros a Hne; [contradiction|].
  cbn [User.accumulate]. rewrite last_cons.
  specialize (IH (a + amount t)).
  destruct l as [|t' l].
  - cbn. f_equal; lia.
  - specialize (IH ltac:(discriminate)).
    destruct (last (User.accumulate (a + amount t) (t' :: l))) as [p|];
      [|discriminate IH].
    cbn in IH. injection IH as IH. cbn. f_equal. rewrite IH.
    rewrite (fold_add_shift l (0 + amount t + amount t')).
    rewrite (fold_add_shift l (0 + amount t')). lia.
Qed.

Lemma accumulate_sorted (l : list Transaction) (a : Z) :
  Forall (fun t => 0 <= amount t) l ->
  Sorted Z.le (List.map User.value (User.accumulate a l))
  /\ HdRel Z.le a (List.map User.value (User.accumulate a l)).
Proof.
  intros H. revert a. induction H as [|t l Ht Hl IH]; intros a; simpl.
  - split; constructor.
  - destruct (IH (a + amount t)) as [IH1 IH2].
    split; constructor; auto. lia.
Qed.

(** C10. When the transactions of a user hold at least one of type 'xp', the
    value of the last point of [getXPOverTime] is [calculateTotalXP] of those
    transactions; when no xp amount is negative the values never decrease. *)
Theorem getXPOverTime_last_total_and_monotone (this : User.t) :
  ((exists t, t ∈ User.u_transactions this /\ is_xp t = true) ->
     User.value <$> last (User.getXPOverTime this)
     = Some (calculateTotalXP (User.u_transactions this)))
  /\ ((forall t, t ∈ User.u_transactions this -> is_xp t = true -> 0 <= amount t) ->
      Sorted Z.le (List.map User.value (User.getXPOverTime this))).
Proof.
  unfold User.getXPOverTime, calculateTotalXP. split.
  - intros (t & Hin & Hxp).
    rewrite accumulate_last; [f_equal; lia|].
    intros Hnil.
    assert (H : t ∈ List.filter is_xp (User.u_transactions this)).
    { rewrite list_elem_of_In. apply filter_In. rewrite <- list_elem_of_In. auto. }
    rewrite Hnil in H. inversion H.
  - intros Hpos. apply accumulate_sorted.
    apply List.Forall_forall. intros t Ht. apply filter_In in Ht as [Hin Hxp].
    apply Hpos; [apply list_elem_of_In; exact Hin | exact Hxp].
Qed.

Lemma getXPOverTime_last_total_and_monotone_witness :
  let this := User.constructor
                (mkRawUser None None None None None None None None None
                           (Some sampleLog) None None) in
  User.value <$> last (User.getXPOverTime this) = Some 80
  /\ Sorted Z.le (List.map User.value (User.getXPOverTime this)).
Proof.
  intros this.
  destruct (getXPOverTime_last_total_and_monotone this) as [H1 H2]. split.
  - apply H1. exists (mkTransaction "xp" 50 1 (Some "/a/b") 20).
    split; [left | reflexivity].
  - apply H2. intros t Ht _.
    repeat (apply elem_of_cons in Ht as [->|Ht]; [simpl; lia|]).
    inversion Ht.
Defined.

(** *** Fetching the profile *)

(** C5, as stated, fails: with a user record present, a missing
    [transactions] collection is not read as empty, the call throws. *)
Lemma getUserProfile_missing_transactions_throws :
  let response := Some (mkResponseData (Some [userWithoutTransactions])) in
  firstUser response = Some userWithoutTransactions
  /\ transactions userWithoutTransactions = None
  /\ getUserProfile response = Throw TypeError.
Proof. repeat split. Qed.

(** C5, amended. [getUserProfile] throws its invalid-response error exactly
    when the response holds no first user record. With a user record, it
    returns a profile when [audits], [transactions] and [progressesByPath]
    are present, a missing [xps] being read as empty, and it throws a
    [TypeError] when one of the three is missing. The constructor of [User]
    reads every missing collection as empty. *)
Theorem getUserProfile_failure_modes (response : option ResponseData) :
  (getUserProfile response = Throw InvalidResponseStructure
   <-> firstUser response = None)
  /\ (forall userData, firstUser response = Some userData ->
        (forall a t p,
            audits userData = Some a -> transactions userData = Some t ->
            progressesByPath userData = Some p ->
            exists profile,
              getUserProfile response = Ok profile
              /\ x_xps (xpInfo profile) = default [] (xps userData)
              /\ totalXP (xpInfo profile) = calculateTotalXP t
              /\ p_level profile = getCurrentLevel t)
        /\ (audits userData = None \/ transactions userData = None
            \/ progressesByPath userData = None ->
            getUserProfile response = Throw TypeError))
  /\ (forall userData,
        User.u_transactions (User.constructor userData)
        = default [] (transactions userData)
        /\ User.u_xps (User.constructor userData) = default [] (xps userData)
        /\ User.u_progressesByPath (User.constructor userData)
           = default [] (progressesByPath userData)).
Proof.
  split; [|split].
  - unfold getUserProfile. destruct (firstUser response) as [u|].
    + split; [|discriminate].
      destruct (audits u), (transactions u), (progressesByPath u); discriminate.
    + split; reflexivity.
  - intros u Hu. unfold getUserProfile. rewrite Hu. split.
    + intros a t p Ha Ht Hp. rewrite Ha, Ht, Hp. eexists. repeat split.
    + intros [H|[H|H]]; rewrite H;
        destruct (audits u), (transactions u); reflexivity.
  - intros userData. repeat split.
Qed.

Lemma getUserProfile_failure_modes_witness :
  let userData := mkRawUser (Some "ada") None None None None None None None
                    None (Some []) (Some []) (Some []) in
  let response := Some (mkResponseData (Some [userData])) in
  exists profile,
    getUserProfile response = Ok profile
    /\ x_xps (xpInfo profile) = []
    /\ totalXP (xpInfo profile) = 0
    /\ p_level profile = 0.
Proof.
  intros userData response.
  destruct (getUserProfile_failure_modes response) as (_ & H & _).
  destruct (H userData eq_refl) as [Hok _].
  exact (Hok [] [] [] eq_refl eq_refl eq_refl).
Defined.

End Aggregation.

(** ** Chart geometry *)

Section Geometry.

Import SVGUtils ProfileView.

Lemma max2_same (z : Z) : Num.max2 (Num.ofZ z) (Num.ofZ z) = Num.ofZ z.
Proof.
  unfold Num.max2, Num.ofZ, Num.gtb.
  replace (Qle_bool (inject_Z z) (inject_Z z)) with true; [reflexivity|].
  symmetry. apply Qle_bool_iff, Qle_refl.
Qed.

Lemma max2_const_acc (z : Z) (l : list number) :
  Forall (fun a => a = Num.ofZ z) l -> fold_left Num.max2 l (Num.ofZ z) = Num.ofZ z.
Proof.
  induction 1 as [|a l Ha _ IH]; cbn [fold_left]; [reflexivity|].
  subst a. rewrite max2_same. exact IH.
Qed.

(** The maximum of a non-empty array of equal integers is that integer. *)
Lemma max_const (z : Z) (l : list number) :
  l <> [] -> Forall (fun a => a = Num.ofZ z) l -> Num.max l = Num.ofZ z.
Proof.
  intros Hne H. destruct H as [|a l Ha Hl]; [contradiction|].
  subst a. unfold Num.max. cbn [fold_left].
  change (Num.max2 NegInf (Num.ofZ z)) with (Num.ofZ z).
  apply max2_const_acc, Hl.
Qed.

Lemma timeline_max_const (z : Z) (xpData : list GraphQLService.TimelineEntry) :
  xpData <> [] ->
  (forall d, d ∈ xpData -> GraphQLService.tl_amount d = z) ->
  Num.max (List.map (fun d => Num.ofZ (GraphQLService.tl_amount d)) xpData) = Num.ofZ z.
Proof.
  intros Hne Hall. apply max_const.
  - destruct xpData; [contradiction | discriminate].
  - apply List.Forall_forall. intros a Ha.
    apply in_map_iff in Ha as (d & <- & Hd).
    rewrite (Hall d); [reflexivity | apply list_elem_of_In, Hd].
Qed.

Lemma timeline_nonempty_path (xpData : list GraphQLService.TimelineEntry) :
  xpData <> [] -> Nat.eqb (length xpData) 0 = false.
Proof. destruct xpData; [contradiction | reflexivity]. Qed.

(** C3 at its failing inputs. For every single-point input the x coordinate
    is [NaN]: the index 0 is divided by [length - 1 = 0]. For every
    non-empty input whose amounts are all 0 every y coordinate is [NaN]:
    the amount is divided by the maximum 0, for which nothing is
    substituted. *)
Theorem calculateTimelinePath_degenerate_NaN :
  (forall d, List.map cmd_x (calculateTimelinePath [d]) = [NaN])
  /\ (forall xpData,
        xpData <> [] ->
        (forall d, d ∈ xpData -> GraphQLService.tl_amount d = 0) ->
        forall c, c ∈ calculateTimelinePath xpData -> cmd_y c = NaN).
Proof.
  split.
  - intros d. reflexivity.
  - intros xpData Hne Hzero c Hc.
    unfold calculateTimelinePath in Hc.
    rewrite (timeline_nonempty_path xpData Hne) in Hc.
    rewrite (timeline_max_const 0 xpData Hne Hzero) in Hc.
    apply elem_of_lookup_imap in Hc as (i & d & -> & Hd).
    apply list_elem_of_lookup_2 in Hd. rewrite (Hzero d Hd).
    destruct (Nat.eqb i 0); reflexivity.
Qed.

Lemma calculateTimelinePath_degenerate_NaN_witness :
  List.map cmd_x (calculateTimelinePath [entryOf 5]) = [NaN]
  /\ forall c, c ∈ calculateTimelinePath [entryOf 0; entryOf 0] -> cmd_y c = NaN.
Proof.
  destruct calculateTimelinePath_degenerate_NaN as [H1 H2]. split.
  - apply H1.
  - apply H2; [discriminate|].
    intros d Hd. repeat (apply elem_of_cons in Hd as [->|Hd]; [reflexivity|]).
    inversion Hd.
Defined.

(** The part of C3 that holds: when all amounts are equal and not 0, every
    y coordinate is 0. *)
Lemma calculateTimelinePath_equal_nonzero (xpData : list GraphQLService.TimelineEntry)
      (z : Z) :
  z <> 0 -> xpData <> [] ->
  (forall d, d ∈ xpData -> GraphQLService.tl_amount d = z) ->
  forall c, c ∈ calculateTimelinePath xpData -> Num.eq (cmd_y c) (Fin 0).
Proof.
  intros Hz Hne Hall c Hc.
  unfold calculateTimelinePath in Hc.
  rewrite (timeline_nonempty_path xpData Hne) in Hc.
  rewrite (timeline_max_const z xpData Hne Hall) in Hc.
  apply elem_of_lookup_imap in Hc as (i & d & -> & Hd).
  apply list_elem_of_lookup_2 in Hd. rewrite (Hall d Hd).
  assert (Hq : ~ (inject_Z z == 0)%Q).
  { unfold Qeq. simpl. lia. }
  assert (Hb : Num.Qzero_b (inject_Z z) = false).
  { unfold Num.Qzero_b. destruct (Qeq_bool (inject_Z z) 0) eqn:E; [|reflexivity].
    apply Qeq_bool_eq in E. contradiction. }
  assert (Hy : Num.eq (Num.sub (Fin 50)
                         (Num.mul (Num.div (Num.ofZ z) (Num.ofZ z)) (Fin 50))) (Fin 0)).
  { unfold Num.div, Num.ofZ. rewrite Hb. cbn [Num.mul Num.sub Num.opp Num.add Num.eq].
    field. exact Hq. }
  destruct (Nat.eqb i 0); exact Hy.
Qed.

(** C6 at its failing input. With [up = 0] and [down = 0] the maximum is 0
    and both bar heights, and with them both y attributes, are [NaN]. *)
Theorem createAuditRatioChart_zero_max_NaN :
  List.map r_height (createAuditRatioChart (Fin 0) (Fin 0)) = [NaN; NaN]
  /\ List.map r_y (createAuditRatioChart (Fin 0) (Fin 0)) = [NaN; NaN].
Proof. split; reflexivity. Qed.

Lemma div_Fin (x y : Q) : Num.Qzero_b y = false -> Num.div (Fin x) (Fin y) = Fin (x / y).
Proof. intros H. unfold Num.div. rewrite H. reflexivity. Qed.

(** The part of C6 that holds: with a positive maximum [m] the two bars sit
    at x = 0 and x = 50 in columns of width 100 / 2, are 2 narrower than the
    column, have height (value / m) * 100 and reach down to y = 100. *)
Lemma createAuditRatioChart_positive (u d : Q) :
  (0 <= u)%Q -> (0 <= d)%Q -> (0 < u \/ 0 < d)%Q ->
  exists m : Q,
    Num.max [Fin u; Fin d] = Fin m /\ (u <= m)%Q /\ (d <= m)%Q /\ (0 < m)%Q
    /\ Forall2 Num.eq (List.map r_x (createAuditRatioChart (Fin u) (Fin d)))
                       [Fin 0; Fin 50]
    /\ Forall2 Num.eq (List.map r_width (createAuditRatioChart (Fin u) (Fin d)))
                       [Fin 48; Fin 48]
    /\ Forall2 Num.eq (List.map r_height (createAuditRatioChart (Fin u) (Fin d)))
                       [Fin (u / m * 100); Fin (d / m * 100)]
    /\ Forall2 Num.eq
         (List.map (fun r => Num.add (r_y r) (r_height r))
                   (createAuditRatioChart (Fin u) (Fin d)))
         [Fin 100; Fin 100].
Proof.
  intros Hu Hd Hpos.
  assert (Hmax : exists m, Num.max [Fin u; Fin d] = Fin m
                           /\ (u <= m)%Q /\ (d <= m)%Q /\ (0 < m)%Q).
  { unfold Num.max. cbn [fold_left Num.max2 Num.gtb].
    destruct (Qle_bool d u) eqn:E; cbn [negb].
    - apply Qle_bool_iff in E. exists u.
      split; [reflexivity|]. split; [lra|]. split; [lra|]. destruct Hpos; lra.
    - assert (~ (d <= u)%Q) by (intros C; apply Qle_bool_iff in C; congruence).
      exists d. split; [reflexivity|]. split; [lra|]. split; lra. }
  destruct Hmax as (m & Hm & Hum & Hdm & Hm0).
  exists m. split; [exact Hm|]. split; [exact Hum|]. split; [exact Hdm|].
  split; [exact Hm0|].
  assert (Hq : ~ (m == 0)%Q) by lra.
  assert (Hb : Num.Qzero_b m = false).
  { unfold Num.Qzero_b. destruct (Qeq_bool m 0) eqn:E; [|reflexivity].
    apply Qeq_bool_eq in E. contradiction. }
  unfold createAuditRatioChart, auditBars. rewrite Hm.
  cbn [imap List.map length r_x r_width r_height r_y compose].
  rewrite !(div_Fin _ m Hb).
  change (Num.div (Fin 100) (Num.ofNat 2)) with (Fin (100 / inject_Z 2)).
  repeat (split; [pairwise_eq|]); [..|pairwise_eq];
    cbn [Num.eq Num.mul Num.sub Num.add Num.opp Num.ofNat];
    try reflexivity; field; exact Hq.
Qed.

(** C7 at its failing input. The dictionary has a matching entry, so no
    placeholder is rendered, but its total is 0 kB: the share of the slice
    is 0 / 0 and the end angle and the percentage of the slice are [NaN]. *)
Theorem renderProjectPieChart_zero_total_NaN :
  let scene := children (renderProjectPieChart smallProject) in
  placeholders scene = []
  /\ List.map s_amount (slices scene) = [Fin 0]
  /\ List.map endOf (slices scene) = [NaN]
  /\ List.map s_percentage (slices scene) = [NaN].
Proof. vm_compute. repeat split. Qed.

(** The part of C7 that holds: without a matching entry the scene is the
    placeholder alone. *)
Lemma renderProjectPieChart_no_match (xpByPath : list (string * Z)) :
  List.filter isModuleProject xpByPath = [] ->
  renderProjectPieChart xpByPath
  = mkScene None [Placeholder "No XP data available for Bahrain module projects"].
Proof. intros H. unfold renderProjectPieChart. rewrite H. reflexivity. Qed.

(** *** The donut *)

Lemma slices_cons_path (s : Slice) (label rest : list Primitive) :
  (label = [] \/ exists p n, label = [PercentLabel p n]) ->
  slices (ArcPath s :: label ++ rest) = s :: slices rest.
Proof. intros [->|(p & n & ->)]; reflexivity. Qed.







(** Weights 23 and 17: the products 57.49999999999999 and 42.5 are shown
    as 57 and 43. *)
Example percentOf_23_17 : percentOf 23 40 = 57 /\ percentOf 17 40 = 43.
Proof. vm_compute. split; reflexivity. Qed.








Lemma slices_app (l1 l2 : list Primitive) : slices (l1 ++ l2) = slices l1 ++ slices l2.
Proof. unfold slices. apply omap_app. Qed.

Lemma slices_concat_imap (ps : list Project) :
  forall f : nat -> Project -> list Primitive,
    (forall i p, slices (f i p) = []) -> slices (concat (imap f ps)) = [].
Proof.
  induction ps as [|p ps IH]; intros f Hf; [reflexivity|].
  rewrite imap_cons. cbn [concat]. rewrite slices_app, Hf.
  apply IH. intros i q. apply Hf.
Qed.

Lemma slices_legend (T : number) (ps : list Project) : slices (drawLegend T ps) = [].
Proof. unfold drawLegend. apply slices_concat_imap. reflexivity. Qed.

Lemma sortInsert_length {A} (keep : A -> A -> bool) (x : A) (l : list A) :
  length (sortInsert keep x l) = Datatypes.S (length l).
Proof.
  induction l as [|y l IH]; [reflexivity|].
  cbn [sortInsert]. destruct (keep x y); cbn [length]; [|rewrite IH]; reflexivity.
Qed.

Lemma sortBy_length {A} (keep : A -> A -> bool) (l : list A) :
  length (sortBy keep l) = length l.
Proof.
  induction l as [|x l IH]; [reflexivity|].
  cbn [sortBy fold_right]. fold (sortBy keep l).
  rewrite sortInsert_length, IH. reflexivity.
Qed.

(** The slices of the scene are those the donut builder draws for the
    matching projects, sorted by amount, and their total. *)
Lemma renderProjectPieChart_slices (xpByPath : list (string * Z)) :
  List.filter isModuleProject xpByPath <> [] ->
  let ps := sortBy keepOrder (List.map toProject (List.filter isModuleProject xpByPath)) in
  slices (children (renderProjectPieChart xpByPath))
  = slices (drawSlices (totalOf ps) (Num.div (Num.opp Math_PI) (Fin 2)) 0 ps).
Proof.
  intros Hne ps. unfold renderProjectPieChart.
  destruct (List.filter isModuleProject xpByPath) as [|e es] eqn:E; [contradiction|].
  cbn [List.map length Nat.eqb children]. fold ps.
  rewrite !slices_app, slices_legend, app_nil_r. reflexivity.
Qed.


End Geometry.

(** ** Colors *)

Section Colors.

Import JSString ProfileView.

Lemma hexValue_range (c : ascii) (d : Z) : hexValue c = Some d -> 0 <= d < 16.
Proof.
  unfold hexValue. set (n := Z.of_N (N_of_ascii c)).
  destruct ((48 <=? n) && (n <=? 57)) eqn:E1;
    [|destruct ((97 <=? n) && (n <=? 102)) eqn:E2;
      [|destruct ((65 <=? n) && (n <=? 70)) eqn:E3]];
    intros H; try discriminate; injection H as <-;
    apply andb_prop in E1 || apply andb_prop in E2 || apply andb_prop in E3; lia.
Qed.

Lemma hexDigit_lower (c : ascii) (d : Z) :
  hexValue c = Some d -> hexDigit d = lowerChar c.
Proof.
  destruct c as [b0 b1 b2 b3 b4 b5 b6 b7].
  destruct b0, b1, b2, b3, b4, b5, b6, b7; intros H; vm_compute in H;
    try discriminate H; injection H as <-; reflexivity.
Qed.

Lemma hexValue_hexDigit (d : Z) : 0 <= d < 16 -> hexValue (hexDigit d) = Some d.
Proof.
  intros H.
  assert (Hc : d = 0 \/ d = 1 \/ d = 2 \/ d = 3 \/ d = 4 \/ d = 5 \/ d = 6 \/ d = 7
               \/ d = 8 \/ d = 9 \/ d = 10 \/ d = 11 \/ d = 12 \/ d = 13 \/ d = 14
               \/ d = 15) by lia.
  repeat (destruct Hc as [->|Hc]; [reflexivity|]). subst d. reflexivity.
Qed.

Lemma dropHexPrefix_hex (c1 c2 : ascii) (s : string) (d2 : Z) :
  hexValue c2 = Some d2 ->
  dropHexPrefix (String c1 (String c2 s)) = String c1 (String c2 s).
Proof.
  intros H2. unfold dropHexPrefix. cbn [String.prefix].
  destruct (ascii_dec "0" c1) as [_|_]; [|reflexivity].
  destruct (ascii_dec "x" c2) as [<-|_]; [vm_compute in H2; discriminate H2|].
  destruct (ascii_dec "X" c2) as [<-|_]; [vm_compute in H2; discriminate H2|].
  reflexivity.
Qed.

Lemma parseInt16_no_sign (c1 : ascii) (rest : string) (d1 : Z) :
  hexValue c1 = Some d1 ->
  parseInt16 (String c1 rest) = parseDigits (dropHexPrefix (String c1 rest)) false 0.
Proof.
  unfold parseInt16.
  destruct c1 as [b0 b1 b2 b3 b4 b5 b6 b7].
  destruct b0, b1, b2, b3, b4, b5, b6, b7; intros H1; vm_compute in H1;
    try discriminate H1; reflexivity.
Qed.

(** A string that starts with two hexadecimal digits has no white space,
    sign or [0x] prefix to pass over. *)
Lemma parseInt16_hex (c1 c2 : ascii) (s : string) (d1 d2 : Z) :
  hexValue c1 = Some d1 -> hexValue c2 = Some d2 ->
  parseInt16 (String c1 (String c2 s)) = parseDigits s true ((0 * 16 + d1) * 16 + d2).
Proof.
  intros H1 H2.
  rewrite (parseInt16_no_sign c1 _ d1 H1), (dropHexPrefix_hex c1 c2 s d2 H2).
  cbn [parseDigits]. rewrite H1, H2. reflexivity.
Qed.

Lemma hexDigits_more (f : nat) (m : Z) (acc : string) :
  m / 16 <> 0 ->
  hexDigits (S f) m acc = hexDigits f (m / 16) (String (hexDigit (m mod 16)) acc).
Proof.
  intros H. cbn [hexDigits]. destruct (m / 16 =? 0) eqn:E; [|reflexivity].
  apply Z.eqb_eq in E. contradiction.
Qed.

Lemma hexDigits_last (f : nat) (m : Z) (acc : string) :
  m / 16 = 0 -> hexDigits (S f) m acc = String (hexDigit (m mod 16)) acc.
Proof. intros H. cbn [hexDigits]. rewrite H. reflexivity. Qed.

(** [0x1000000 + n] prints as [1] followed by the six digits of [n]. *)
Lemma toString16_seven (n : Z) :
  0 <= n < 16777216 -> toString16 (16777216 + n) = String "1" (digits6 n).
Proof.
  intros Hn0. unfold toString16.
  replace (16777216 + n <? 0) with false by (symmetry; apply Z.ltb_ge; lia).
  rewrite (Z.log2_unique (16777216 + n) 24) by (change (2 ^ 24) with 16777216;
    change (2 ^ (24 + 1)) with 33554432; lia).
  change (Z.to_nat 24) with 24%nat.
  do 6 (rewrite hexDigits_more by (Z.div_mod_to_equations; lia)).
  rewrite hexDigits_last by (Z.div_mod_to_equations; lia).
  unfold digits6.
  replace ((16777216 + n) mod 16) with (n mod 16)
    by (Z.div_mod_to_equations; lia).
  replace ((16777216 + n) / 16) with (1048576 + n / 16)
    by (Z.div_mod_to_equations; lia).
  assert (Hn1 : 0 <= n / 16 < 1048576) by (Z.div_mod_to_equations; lia).
  generalize dependent (n / 16). intros n1 Hn1.
  replace ((1048576 + n1) mod 16) with (n1 mod 16)
    by (Z.div_mod_to_equations; lia).
  replace ((1048576 + n1) / 16) with (65536 + n1 / 16)
    by (Z.div_mod_to_equations; lia).
  assert (Hn2 : 0 <= n1 / 16 < 65536) by (Z.div_mod_to_equations; lia).
  generalize dependent (n1 / 16). intros n2 Hn2.
  replace ((65536 + n2) mod 16) with (n2 mod 16)
    by (Z.div_mod_to_equations; lia).
  replace ((65536 + n2) / 16) with (4096 + n2 / 16)
    by (Z.div_mod_to_equations; lia).
  assert (Hn3 : 0 <= n2 / 16 < 4096) by (Z.div_mod_to_equations; lia).
  generalize dependent (n2 / 16). intros n3 Hn3.
  replace ((4096 + n3) mod 16) with (n3 mod 16)
    by (Z.div_mod_to_equations; lia).
  replace ((4096 + n3) / 16) with (256 + n3 / 16)
    by (Z.div_mod_to_equations; lia).
  assert (Hn4 : 0 <= n3 / 16 < 256) by (Z.div_mod_to_equations; lia).
  generalize dependent (n3 / 16). intros n4 Hn4.
  replace ((256 + n4) mod 16) with (n4 mod 16)
    by (Z.div_mod_to_equations; lia).
  replace ((256 + n4) / 16) with (16 + n4 / 16)
    by (Z.div_mod_to_equations; lia).
  assert (Hn5 : 0 <= n4 / 16 < 16) by (Z.div_mod_to_equations; lia).
  generalize dependent (n4 / 16). intros n5 Hn5.
  replace ((16 + n5) mod 16) with (n5 mod 16)
    by (Z.div_mod_to_equations; lia).
  replace ((16 + n5) / 16 mod 16) with 1
    by (Z.div_mod_to_equations; lia).
  reflexivity.
Qed.

Lemma toInt32_small (n : Z) : 0 <= n < 2147483648 -> toInt32 n = n.
Proof.
  intros H. unfold toInt32. change (2 ^ 31) with 2147483648.
  change (2 ^ 32) with 4294967296. rewrite Z.mod_small; lia.
Qed.

(** The three channels of a packed triple are its components. *)
Lemma channels_packed (r g b : Z) :
  0 <= r < 256 -> 0 <= g < 256 -> 0 <= b < 256 ->
  channelR (r * 65536 + g * 256 + b) = r
  /\ channelG (r * 65536 + g * 256 + b) = g
  /\ channelB (r * 65536 + g * 256 + b) = b.
Proof.
  intros Hr Hg Hb. unfold channelR, channelG, channelB.
  rewrite toInt32_small by lia.
  change 255 with (Z.ones 8). rewrite !Z.land_ones by lia.
  rewrite !Z.shiftr_div_pow2 by lia.
  change (2 ^ 16) with 65536. change (2 ^ 8) with 256.
  repeat split; Z.div_mod_to_equations; lia.
Qed.

(** Reading back what was printed. *)
Lemma colorNumber_digits6 (n : Z) :
  0 <= n < 16777216 -> colorNumber (String "#" (digits6 n)) = n.
Proof.
  intros Hn. unfold colorNumber. cbn [removeFirst Ascii.eqb Bool.eqb].
  unfold digits6.
  assert (He1 : 0 <= n / 16 / 16 / 16 / 16 / 16 mod 16 < 16)
    by (Z.div_mod_to_equations; lia).
  assert (He2 : 0 <= n / 16 / 16 / 16 / 16 mod 16 < 16)
    by (Z.div_mod_to_equations; lia).
  rewrite (parseInt16_hex _ _ _ _ _ (hexValue_hexDigit _ He1) (hexValue_hexDigit _ He2)).
  cbn [parseDigits].
  rewrite !hexValue_hexDigit by (Z.div_mod_to_equations; lia).
  cbn [from_option id]. Z.div_mod_to_equations; lia.
Qed.

(** The number of a hex color packs three channels. *)
Lemma colorNumber_hexColor (color : string) :
  isHexColor color = true ->
  exists r g b,
    0 <= r < 256 /\ 0 <= g < 256 /\ 0 <= b < 256
    /\ colorNumber color = r * 65536 + g * 256 + b
    /\ toLowerCase color = String "#" (digits6 (r * 65536 + g * 256 + b)).
Proof.
  intros H.
  destruct color as [|c0 [|c1 [|c2 [|c3 [|c4 [|c5 [|c6 [|c7 rest]]]]]]]];
    try discriminate H.
  cbn [isHexColor] in H. unfold isHexChar in H.
  destruct (Ascii.eqb c0 "#") eqn:E0; [|discriminate H]. apply Ascii.eqb_eq in E0.
  subst c0.
  destruct (hexValue c1) as [d1|] eqn:H1; [|discriminate H].
  destruct (hexValue c2) as [d2|] eqn:H2; [|discriminate H].
  destruct (hexValue c3) as [d3|] eqn:H3; [|discriminate H].
  destruct (hexValue c4) as [d4|] eqn:H4; [|discriminate H].
  destruct (hexValue c5) as [d5|] eqn:H5; [|discriminate H].
  destruct (hexValue c6) as [d6|] eqn:H6; [|discriminate H].
  pose proof (hexValue_range _ _ H1). pose proof (hexValue_range _ _ H2).
  pose proof (hexValue_range _ _ H3). pose proof (hexValue_range _ _ H4).
  pose proof (hexValue_range _ _ H5). pose proof (hexValue_range _ _ H6).
  exists (d1 * 16 + d2), (d3 * 16 + d4), (d5 * 16 + d6).
  split; [lia|]. split; [lia|]. split; [lia|]. split.
  - unfold colorNumber. cbn [removeFirst Ascii.eqb Bool.eqb].
    rewrite (parseInt16_hex _ _ _ _ _ H1 H2). cbn [parseDigits].
    rewrite H3, H4, H5, H6. cbn [from_option id]. lia.
  - cbn [toLowerCase]. unfold digits6.
    rewrite <- (hexDigit_lower _ _ H1), <- (hexDigit_lower _ _ H2),
      <- (hexDigit_lower _ _ H3), <- (hexDigit_lower _ _ H4),
      <- (hexDigit_lower _ _ H5), <- (hexDigit_lower _ _ H6).
    set (v := (d1 * 16 + d2) * 65536 + (d3 * 16 + d4) * 256 + (d5 * 16 + d6)).
    replace (v / 16 / 16 / 16 / 16 / 16 mod 16) with d1
      by (subst v; Z.div_mod_to_equations; lia).
    replace (v / 16 / 16 / 16 / 16 mod 16) with d2
      by (subst v; Z.div_mod_to_equations; lia).
    replace (v / 16 / 16 / 16 mod 16) with d3
      by (subst v; Z.div_mod_to_equations; lia).
    replace (v / 16 / 16 mod 16) with d4
      by (subst v; Z.div_mod_to_equations; lia).
    replace (v / 16 mod 16) with d5
      by (subst v; Z.div_mod_to_equations; lia).
    replace (v mod 16) with d6
      by (subst v; Z.div_mod_to_equations; lia).
    reflexivity.
Qed.

Lemma darkenAmount_zero : darkenAmount 0 = 0.
Proof. vm_compute. reflexivity. Qed.

(** 2.55 * 50 and 2.55 * 90 are 127.49999999999999 and 229.49999999999997
    in binary64. *)
Example darkenAmount_50_90 :
  darkenAmount 20 = 51 /\ darkenAmount 50 = 127 /\ darkenAmount 90 = 229
  /\ darkenAmount 100 = 255.
Proof. vm_compute. repeat split. Qed.

Lemma darkenAmount_mono (p q : Q) : (p <= q)%Q -> darkenAmount p <= darkenAmount q.
Proof.
  intros H. unfold darkenAmount. apply Qfloor_resp_le.
  assert (Hc : (0 < Double.fl (255 # 100))%Q) by reflexivity.
  assert (Hm : (Double.fl (Double.fl (255 # 100) * p)
                <= Double.fl (Double.fl (255 # 100) * q))%Q).
  { apply fl_mono. apply Qmult_le_l; assumption. }
  lra.
Qed.

Lemma darkenAmount_nonneg (p : Q) : (0 <= p)%Q -> 0 <= darkenAmount p.
Proof. intros H. rewrite <- darkenAmount_zero. apply darkenAmount_mono, H. Qed.

Lemma clamp0_range (x amt : Z) : 0 <= x < 256 -> 0 <= amt -> 0 <= clamp0 (x - amt) < 256.
Proof. intros Hx Ha. unfold clamp0. destruct (x - amt <? 0) eqn:E; lia. Qed.

Lemma clamp0_antitone (x a b : Z) : a <= b -> clamp0 (x - b) <= clamp0 (x - a).
Proof.
  intros H. unfold clamp0.
  destruct (x - b <? 0) eqn:E1, (x - a <? 0) eqn:E2; lia.
Qed.

(** The channels of the darkened color are the channels of the color, each
    less the amount and not below 0. *)
Lemma darkenColor_channels (color : string) (p : Q) :
  isHexColor color = true -> (0 <= p)%Q ->
  channels (darkenColor color p)
  = (clamp0 ((channels color).1.1 - darkenAmount p),
     clamp0 ((channels color).1.2 - darkenAmount p),
     clamp0 ((channels color).2 - darkenAmount p))
  /\ darkenColor color p
     = String "#" (digits6 (clamp0 ((channels color).1.1 - darkenAmount p) * 65536
                            + clamp0 ((channels color).1.2 - darkenAmount p) * 256
                            + clamp0 ((channels color).2 - darkenAmount p))).
Proof.
  intros Hc Hp.
  destruct (colorNumber_hexColor color Hc) as (r & g & b & Hr & Hg & Hb & Hnum & _).
  destruct (channels_packed r g b Hr Hg Hb) as (ER & EG & EB).
  pose proof (darkenAmount_nonneg p Hp) as Ha.
  pose proof (clamp0_range r _ Hr Ha) as Hr'.
  pose proof (clamp0_range g _ Hg Ha) as Hg'.
  pose proof (clamp0_range b _ Hb Ha) as Hb'.
  assert (Hout : darkenColor color p
                 = String "#" (digits6 (clamp0 (r - darkenAmount p) * 65536
                                        + clamp0 (g - darkenAmount p) * 256
                                        + clamp0 (b - darkenAmount p)))).
  { unfold darkenColor. rewrite Hnum, ER, EG, EB.
    rewrite <- !Z.add_assoc. rewrite toString16_seven by lia.
    cbn [slice1]. rewrite !Z.add_assoc. reflexivity. }
  unfold channels at 2 3 4 5 6 7. rewrite Hnum, ER, EG, EB. cbn [fst snd].
  split; [|exact Hout].
  unfold channels. rewrite Hout, colorNumber_digits6 by lia.
  destruct (channels_packed _ _ _ Hr' Hg' Hb') as (ER' & EG' & EB').
  rewrite ER', EG', EB'. reflexivity.
Qed.

(** C8 as stated fails for a negative percentage: the amount subtracted is
    then negative, a channel above 255 carries into its neighbour, and the
    red channel of white goes from 25 at -10 percent up to 255 at 0
    percent. *)
Lemma darkenColor_negative_percent_not_monotone :
  darkenColor "#ffffff" (-10) = "#191918"
  /\ channels (darkenColor "#ffffff" (-10)) = (25, 25, 24)
  /\ channels (darkenColor "#ffffff" 0) = (255, 255, 255)
  /\ ~ ((-10 <= 0)%Q ->
        (channels (darkenColor "#ffffff" 0)).1.1
        <= (channels (darkenColor "#ffffff" (-10))).1.1).
Proof.
  assert (H1 : darkenColor "#ffffff" (-10) = "#191918") by (vm_compute; reflexivity).
  assert (H2 : darkenColor "#ffffff" 0 = "#ffffff") by (vm_compute; reflexivity).
  split; [exact H1|]. rewrite H1, H2.
  split; [reflexivity|]. split; [reflexivity|].
  intros H. assert (C : (-10 <= 0)%Q) by lra. specialize (H C).
  vm_compute in H. apply H. reflexivity.
Qed.

(** C8, amended. For every six-digit hex color, [darkenColor] at 0 percent
    returns the same color: the same channels, and the same string written
    with lower-case digits. For a percentage p that is not negative, every
    channel of the color returned is the channel less round(2.55 * p) (the
    product taken in binary64) and not below 0, and no channel of the
    result increases when the percentage grows from p to q. *)
Theorem darkenColor_identity_and_monotone (color : string) (p q : Q) :
  isHexColor color = true -> (0 <= p)%Q -> (p <= q)%Q ->
  darkenColor color 0 = toLowerCase color
  /\ channels (darkenColor color 0) = channels color
  /\ channels (darkenColor color p)
     = (Z.max 0 ((channels color).1.1 - darkenAmount p),
        Z.max 0 ((channels color).1.2 - darkenAmount p),
        Z.max 0 ((channels color).2 - darkenAmount p))
  /\ (channels (darkenColor color q)).1.1 <= (channels (darkenColor color p)).1.1
  /\ (channels (darkenColor color q)).1.2 <= (channels (darkenColor color p)).1.2
  /\ (channels (darkenColor color q)).2 <= (channels (darkenColor color p)).2.
Proof.
  intros Hc Hp Hpq.
  pose proof (darkenAmount_mono p q Hpq) as Hm.
  destruct (darkenColor_channels color 0 Hc ltac:(lra)) as [H0 H0s].
  destruct (colorNumber_hexColor color Hc) as (r & g & b & Hr & Hg & Hb & Hnum & Hlow).
  destruct (channels_packed r g b Hr Hg Hb) as (ER & EG & EB).
  assert (Hch : channels color = (r, g, b)).
  { unfold channels. rewrite Hnum, ER, EG, EB. reflexivity. }
  assert (Hid : forall x, 0 <= x -> clamp0 (x - 0) = x).
  { intros x Hx. unfold clamp0. destruct (x - 0 <? 0) eqn:E; lia. }
  assert (Hmax : forall x, clamp0 x = Z.max 0 x).
  { intros x. unfold clamp0. destruct (x <? 0) eqn:E; lia. }
  rewrite Hch in *. cbn [fst snd] in *. rewrite darkenAmount_zero in *.
  rewrite !Hid in H0, H0s by lia.
  split; [rewrite H0s, Hlow; reflexivity|].
  split; [exact H0|].
  assert (Hq : (0 <= q)%Q) by lra.
  destruct (darkenColor_channels color p Hc Hp) as [HP _].
  destruct (darkenColor_channels color q Hc Hq) as [HQ _].
  rewrite Hch in *. cbn [fst snd] in *.
  split; [rewrite HP, !Hmax; reflexivity|].
  rewrite HP, HQ. cbn [fst snd].
  repeat split; apply clamp0_antitone, Hm.
Qed.

Lemma darkenColor_identity_and_monotone_witness :
  darkenColor "#3B82F6" 0 = "#3b82f6"
  /\ channels (darkenColor "#3B82F6" 0) = (59, 130, 246)
  /\ channels (darkenColor "#3B82F6" 50) = (0, 3, 119)
  /\ (channels (darkenColor "#3B82F6" 90)).2 <= (channels (darkenColor "#3B82F6" 50)).2.
Proof.
  destruct (darkenColor_identity_and_monotone "#3B82F6" 50 90)
    as (H1 & H2 & H3 & _ & _ & H4); [reflexivity | lra | lra |].
  split; [exact H1|]. split; [exact H2|]. split; [exact H3 | exact H4].
Defined.

End Colors.

(** ** Aggregation, continued *)

Section MoreAggregation.

Import GraphQLService.

Lemma assign_lookup {V} (acc : gmap string V) (k' k : string) (v : V) :
  assign acc k' v !! k
  = if String.eqb k' "__proto__" then acc !! k
    else if String.eqb k' k then Some v else acc !! k.
Proof.
  unfold assign. destruct (String.eqb k' "__proto__"); [reflexivity|].
  destruct (String.eqb_spec k' k) as [->|Hne];
    [apply lookup_insert_eq | apply lookup_insert_ne, Hne].
Qed.

Lemma fold_amounts_snoc {A} (amt : A -> Z) (l : list A) (x : A) :
  fold_left (fun sum y => sum + amt y) (l ++ [x]) 0
  = fold_left (fun sum y => sum + amt y) l 0 + amt x.
Proof. rewrite fold_left_app. reflexivity. Qed.

(** What a reducer [acc[key] = (acc[key] || 0) + amount] leaves under a key:
    nothing under [__proto__], a string under another inherited name, and
    the sum of the amounts met under any other key. *)
Lemma tally_lookup {A} (key : A -> string) (amt : A -> Z) (l : list A) :
  forall k : string,
    fold_left (fun acc x => assign acc (key x) (orZeroPlus acc (key x) (amt x))) l ∅ !! k
    = match List.filter (fun x => String.eqb (key x) k) l with
      | [] => None
      | _ :: _ =>
          if String.eqb k "__proto__" then None
          else if inherited k then Some VString
          else Some (VNumber (fold_left (fun sum x => sum + amt x)
                                (List.filter (fun x => String.eqb (key x) k) l) 0))
      end.
Proof.
  induction l as [|x l IH] using rev_ind; intros k; [reflexivity|].
  rewrite fold_left_app. cbn [fold_left].
  set (acc := fold_left _ l ∅) in *.
  rewrite assign_lookup, List.filter_app. cbn [List.filter].
  destruct (String.eqb_spec (key x) k) as [E|Hne].
  - rewrite E. unfold orZeroPlus. rewrite (IH k).
    set (rows := List.filter (fun y => String.eqb (key y) k) l).
    destruct (String.eqb k "__proto__") eqn:Ep.
    + destruct rows; reflexivity.
    + destruct rows as [|r rows'] eqn:Er.
      * cbn [app]. destruct (inherited k); reflexivity.
      * cbn [app]. destruct (inherited k); [reflexivity|].
        rewrite or_zero_Some.
        change (r :: rows' ++ [x]) with ((r :: rows') ++ [x]).
        rewrite fold_amounts_snoc. reflexivity.
  - rewrite app_nil_r, (IH k).
    destruct (String.eqb (key x) "__proto__"); reflexivity.
Qed.

Lemma filter_inGroup (k : string) (T : list Transaction) :
  List.filter (fun t => String.eqb (groupKey t) k) (List.filter is_xp T)
  = List.filter (inGroup k) T.
Proof.
  induction T as [|t T IH]; [reflexivity|].
  unfold inGroup in *. cbn [List.filter].
  destruct (is_xp t); cbn [List.filter andb]; rewrite IH; reflexivity.
Qed.

Lemma existsb_inGroup (k : string) (T : list Transaction) :
  existsb (fun t => String.eqb (groupKey t) k) (List.filter is_xp T)
  = existsb (inGroup k) T.
Proof.
  induction T as [|t T IH]; [reflexivity|].
  unfold inGroup in *. cbn [List.filter existsb].
  destruct (is_xp t); cbn [existsb andb orb]; rewrite IH; reflexivity.
Qed.

(** X1. Under a key, [groupXPByPath] has an entry exactly when some xp
    transaction is filed under the key (its path, or "Unknown" when the path
    is absent or empty) and the key is not [__proto__]. The entry is the sum
    of the amounts of these transactions, except under another property
    name of [Object.prototype], where it is a string. *)
Theorem groupXPByPath_lookup (T : list Transaction) (k : string) :
  let filed :=
    List.filter (fun t => is_xp t && String.eqb (or_string (path t) "Unknown") k) T in
  groupXPByPath T !! k
  = match filed with
    | [] => None
    | _ :: _ =>
        if String.eqb k "__proto__" then None
        else if inherited k then Some VString
        else Some (VNumber (amountSum filed))
    end.
Proof.
  intros filed. unfold groupXPByPath.
  change (fold_left groupStep ?l ∅)
    with (fold_left (fun acc x => assign acc (groupKey x) (orZeroPlus acc (groupKey x) (amount x)))
                    l ∅).
  rewrite (tally_lookup groupKey amount), filter_inGroup. reflexivity.
Qed.

(** Transactions filed under names of [Object.prototype]: nothing is kept
    under [__proto__] and a string under [constructor]. *)
Example groupXPByPath_inherited_names :
  let T := [ mkTransaction "xp" 50 1 (Some "__proto__") 20;
             mkTransaction "xp" 30 2 (Some "constructor") 20;
             mkTransaction "xp" 7 3 (Some "/a") 20 ] in
  groupXPByPath T !! "__proto__" = None
  /\ groupXPByPath T !! "constructor" = Some VString
  /\ groupXPByPath T !! "/a" = Some (VNumber 7)
  /\ sumValues (groupXPByPath T) = None.
Proof. vm_compute. repeat split. Qed.

Lemma accumulate_dates (l : list Transaction) (a : Z) :
  List.map User.date (User.accumulate a l) = List.map createdAt l.
Proof.
  revert a. induction l as [|t l IH]; intros a; [reflexivity|].
  cbn [User.accumulate List.map]. rewrite IH. reflexivity.
Qed.

Lemma accumulate_lookup (l : list Transaction) :
  forall (a : Z) (i : nat) (p : User.XPPoint),
    User.accumulate a l !! i = Some p ->
    User.value p = a + amountSum (take (Datatypes.S i) l).
Proof.
  unfold amountSum.
  induction l as [|t l IH]; intros a i p Hp; [discriminate|].
  destruct i as [|i].
  - cbn in Hp. injection Hp as <-. destruct l; cbn; lia.
  - cbn [User.accumulate] in Hp. rewrite lookup_cons in Hp. apply IH in Hp. rewrite Hp.
    cbn [take fold_left]. rewrite (fold_add_shift _ (0 + amount t)). lia.
Qed.

(** X2. [getXPOverTime] and [createTimeline] describe the same series: they
    have one point per xp transaction with the same dates in the same order,
    and the i-th cumulative value is the sum of the first i + 1 amounts of
    the timeline. *)
Theorem getXPOverTime_matches_timeline (this : User.t) :
  let timeline := createTimeline (User.u_transactions this) in
  List.map User.date (User.getXPOverTime this) = List.map tl_date timeline
  /\ forall i p,
       User.getXPOverTime this !! i = Some p ->
       User.value p
       = fold_left Z.add (take (Datatypes.S i) (List.map tl_amount timeline)) 0.
Proof.
  unfold User.getXPOverTime, createTimeline. split.
  - rewrite accumulate_dates, List.map_map. reflexivity.
  - intros i p Hp. apply accumulate_lookup in Hp. rewrite Hp.
    rewrite List.map_map. cbn [tl_amount].
    change (List.map (fun x => amount x) ?l) with (amount <$> l).
    rewrite <- fmap_take. unfold amountSum.
    generalize (take (Datatypes.S i) (List.filter is_xp (User.u_transactions this))).
    intros l. rewrite Z.add_0_l. generalize 0.
    induction l as [|t l IH]; intros a; [reflexivity|]. cbn. apply IH.
Qed.

Lemma getXPOverTime_matches_timeline_witness :
  let this := User.constructor
                (mkRawUser None None None None None None None None None
                           (Some sampleLog) None None) in
  exists p, User.getXPOverTime this !! 1%nat = Some p /\ User.value p = 80.
Proof.
  intros this.
  destruct (getXPOverTime_matches_timeline this) as [_ H].
  eexists. split; [reflexivity|]. exact (H 1%nat _ eq_refl).
Defined.

(** X3. Under a key that is not a property name of [Object.prototype],
    [getXPByProject] holds the sum of the amounts of the xps rows of that
    project, the project of a row being its path, or "Other" when the path
    is absent or empty, and it has no entry when there is no such row. When
    no row has a project named like a property of [Object.prototype], the
    values sum to the total of the amounts of all rows. *)
Theorem getXPByProject_values_sum (this : User.t) :
  (forall k : string,
      inherited k = false ->
      User.getXPByProject this !! k
      = match List.filter (fun xp => String.eqb (or_string (xp_path xp) "Other") k)
                          (User.u_xps this) with
        | [] => None
        | row :: rows =>
            Some (VNumber (fold_left (fun sum xp => sum + xp_amount xp) (row :: rows) 0))
        end)
  /\ ((forall xp, xp ∈ User.u_xps this ->
                 inherited (or_string (xp_path xp) "Other") = false) ->
      sumValues (User.getXPByProject this)
      = Some (fold_left (fun sum xp => sum + xp_amount xp) (User.u_xps this) 0)).
Proof.
  unfold User.getXPByProject. split.
  - intros k Hk.
    rewrite (tally_lookup (fun xp => or_string (xp_path xp) "Other") xp_amount).
    rewrite Hk, (inherited_proto k Hk).
    destruct (List.filter _ (User.u_xps this)); reflexivity.
  - intros H.
    apply (sumValues_fold (fun xp => or_string (xp_path xp) "Other") xp_amount);
      [exact H | apply sumValues_empty].
Qed.

Lemma getXPByProject_values_sum_witness :
  let this := User.constructor
                (mkRawUser None None None None None None None None
                           (Some [mkXPEntry 10 20 (Some "/a"); mkXPEntry 5 20 None;
                                  mkXPEntry 7 20 (Some "/a")])
                           None None None) in
  User.getXPByProject this !! "/a" = Some (VNumber 17)
  /\ User.getXPByProject this !! "Other" = Some (VNumber 5)
  /\ sumValues (User.getXPByProject this) = Some 22.
Proof.
  intros this. destruct (getXPByProject_values_sum this) as [Hk Hs].
  split; [exact (Hk "/a" eq_refl)|]. split; [exact (Hk "Other" eq_refl)|].
  rewrite Hs; [reflexivity|].
  intros xp Hxp. cbn in Hxp.
  repeat (apply elem_of_cons in Hxp as [->|Hxp]; [reflexivity|]). inversion Hxp.
Defined.

(** X4. The deprecated [processUserData] returns a profile exactly when the
    response holds a first user record whose [xps], [progressesByPath] and
    [transactions] are all present; otherwise it throws a [TypeError] (it has
    no check of its own for a missing user). *)
Theorem processUserData_returns_iff (data : ResponseData) :
  (returns (processUserData data)
   <-> exists userData,
         firstUser (Some data) = Some userData
         /\ is_Some (xps userData) /\ is_Some (progressesByPath userData)
         /\ is_Some (transactions userData))
  /\ (~ returns (processUserData data) -> processUserData data = Throw TypeError).
Proof.
  unfold returns, processUserData, firstUser.
  destruct (user data) as [users|]; cbn.
  2:{ split; [split|]; [intros [a H]; discriminate H
                       | intros (u & H & _); discriminate H | reflexivity]. }
  destruct (head users) as [u|].
  2:{ split; [split|]; [intros [a H]; discriminate H
                       | intros (u & H & _); discriminate H | reflexivity]. }
  destruct (xps u) as [xs|] eqn:Ex, (progressesByPath u) as [prs|] eqn:Ep,
    (transactions u) as [ts|] eqn:Et; cbn;
    (split; [split|];
     [ intros [a H]; try discriminate H; exists u; rewrite Ex, Ep, Et; repeat split; eauto
     | intros (u' & Hu & [x Hx] & [y Hy] & [z Hz]); injection Hu as <-;
       try congruence; eauto
     | intros Hn; try reflexivity; exfalso; apply Hn; eauto ]).
Qed.

Lemma processUserData_returns_iff_witness :
  let userData := mkRawUser None None None None None None None None
                    (Some []) (Some []) None (Some []) in
  returns (processUserData (mkResponseData (Some [userData]))).
Proof.
  intros userData.
  destruct (processUserData_returns_iff (mkResponseData (Some [userData]))) as [[_ H] _].
  apply H. exists userData. repeat split; eauto.
Defined.




End MoreAggregation.

(** ** Ratios and the two-segment bars *)

Section Ratios.

Import SVGUtils SVGCharts.

Lemma Qzero_b_inject (z : Z) : z <> 0 -> Num.Qzero_b (inject_Z z) = false.
Proof.
  intros Hz. unfold Num.Qzero_b. destruct (Qeq_bool (inject_Z z) 0) eqn:E; [|reflexivity].
  apply Qeq_bool_eq in E. unfold Qeq in E. simpl in E. lia.
Qed.

Lemma Qzero_b_true (q : Q) : Num.Qzero_b q = true -> (q == 0)%Q.
Proof. apply Qeq_bool_eq. Qed.

Lemma Qzero_b_false (q : Q) : Num.Qzero_b q = false -> ~ (q == 0)%Q.
Proof. apply Qeq_bool_neq. Qed.

Lemma length_filter_le {A} (f : A -> bool) (l : list A) :
  (length (List.filter f l) <= length l)%nat.
Proof.
  induction l as [|x l IH]; [reflexivity|].
  cbn [List.filter]. destruct (f x); cbn [length]; lia.
Qed.

(** The quotient of two counts, the first not above the second. *)
Lemma count_ratio (passed total : nat) :
  (passed <= total)%nat ->
  exists q : Q,
    (if (0 <? total)%nat then Num.div (Num.ofNat passed) (Num.ofNat total) else Fin 0)
    = Fin q
    /\ (0 <= q)%Q /\ (q <= 1)%Q
    /\ (q * inject_Z (Z.of_nat total) == inject_Z (Z.of_nat passed))%Q.
Proof.
  intros Hle. destruct (0 <? total)%nat eqn:E.
  - apply Nat.ltb_lt in E.
    assert (Ht : (0 < inject_Z (Z.of_nat total))%Q).
    { rewrite <- (Zlt_Qlt 0). lia. }
    assert (Hp : (0 <= inject_Z (Z.of_nat passed))%Q).
    { rewrite <- (Zle_Qle 0). lia. }
    assert (Hpt : (inject_Z (Z.of_nat passed) <= inject_Z (Z.of_nat total))%Q).
    { rewrite <- Zle_Qle. lia. }
    exists (inject_Z (Z.of_nat passed) / inject_Z (Z.of_nat total))%Q.
    split; [apply div_Fin, Qzero_b_inject; lia|].
    split; [apply Qle_shift_div_l; [exact Ht | lra]|].
    split; [apply Qle_shift_div_r; [exact Ht | lra]|].
    field. lra.
  - apply Nat.ltb_ge in E. assert (total = 0%nat) by lia. subst total.
    assert (passed = 0%nat) by lia. subst passed.
    exists 0%Q. split; [reflexivity|]. split; [lra|]. split; [lra|]. reflexivity.
Qed.

(** X6. [getPassFailRatio] is always a finite number between 0 and 1: the
    exact quotient of the number of succeeded progress rows by their number,
    and 0 (no division) when the user has none. *)
Theorem getPassFailRatio_bounds (this : User.t) :
  exists q : Q,
    UserRatio.getPassFailRatio this = Fin q
    /\ (0 <= q)%Q /\ (q <= 1)%Q
    /\ (q * inject_Z (Z.of_nat (length (User.u_progressesByPath this)))
        == inject_Z (Z.of_nat (length (List.filter succeeded (User.u_progressesByPath this)))))%Q
    /\ (User.u_progressesByPath this = [] -> UserRatio.getPassFailRatio this = Fin 0).
Proof.
  destruct (count_ratio _ _ (length_filter_le succeeded (User.u_progressesByPath this)))
    as (q & Hq & H0 & H1 & Hx).
  exists q. split; [exact Hq|]. split; [exact H0|]. split; [exact H1|].
  split; [exact Hx|]. intros Hnil. unfold UserRatio.getPassFailRatio.
  rewrite Hnil. reflexivity.
Qed.

Lemma getPassFailRatio_bounds_witness :
  UserRatio.getPassFailRatio
    (User.constructor (mkRawUser None None None None None None None None
                                 None None None (Some [])))
  = Fin 0.
Proof.
  destruct (getPassFailRatio_bounds
              (User.constructor (mkRawUser None None None None None None None None
                                           None None None (Some []))))
    as (q & _ & _ & _ & _ & H).
  apply H. reflexivity.
Defined.

Lemma amountSum_nonneg (l : list Transaction) :
  (forall t, In t l -> 0 <= amount t) ->
  0 <= fold_left (fun sum t => sum + amount t) l 0.
Proof.
  intros H.
  assert (G : forall a, 0 <= a -> 0 <= fold_left (fun sum t => sum + amount t) l a).
  { induction l as [|t l IH]; intros a Ha; [exact Ha|].
    cbn [fold_left]. apply IH.
    - intros t' Ht'. apply H. right. exact Ht'.
    - specialize (H t (or_introl eq_refl)). lia. }
  apply G. lia.
Qed.

(** X7. The ratio of [processAuditStats] is never [NaN]: the [|| 0] turns
    the 0 / 0 of a user without votes into 0. When no up or down amount is
    negative the ratio is a finite number between 0 and 1. *)
Theorem processAuditStats_ratio (transactions : list Transaction) :
  LegacyStats.ratio (LegacyStats.processAuditStats transactions) <> NaN
  /\ ((forall t, t ∈ transactions -> type t = "up" \/ type t = "down" -> 0 <= amount t) ->
      exists q : Q,
        LegacyStats.ratio (LegacyStats.processAuditStats transactions) = Fin q
        /\ (0 <= q)%Q /\ (q <= 1)%Q
        /\ (LegacyStats.upVotes (LegacyStats.processAuditStats transactions) = 0 ->
            (q == 0)%Q)).
Proof.
  unfold LegacyStats.processAuditStats. cbn [LegacyStats.ratio LegacyStats.upVotes].
  set (up := LegacyStats.sumOfType "up" transactions).
  set (down := LegacyStats.sumOfType "down" transactions).
  split.
  - unfold num_or_zero.
    destruct (Num.div (Num.ofZ up) (Num.add (Num.ofZ up) (Num.ofZ down))) as [q| | |];
      try discriminate.
    destruct (Num.Qzero_b q); discriminate.
  - intros Hpos.
    assert (Hup : 0 <= up).
    { apply amountSum_nonneg. intros t Ht. apply filter_In in Ht as [Ht Hty].
      apply String.eqb_eq in Hty. apply Hpos; [apply list_elem_of_In, Ht | left; exact Hty]. }
    assert (Hdown : 0 <= down).
    { apply amountSum_nonneg. intros t Ht. apply filter_In in Ht as [Ht Hty].
      apply String.eqb_eq in Hty. apply Hpos; [apply list_elem_of_In, Ht | right; exact Hty]. }
    cbn [Num.ofZ Num.add]. unfold Num.ofZ, Num.div.
    assert (Hu : (0 <= inject_Z up)%Q) by (rewrite <- (Zle_Qle 0); exact Hup).
    assert (Hd : (0 <= inject_Z down)%Q) by (rewrite <- (Zle_Qle 0); exact Hdown).
    destruct (Num.Qzero_b (inject_Z up + inject_Z down)) eqn:E.
    + apply Qzero_b_true in E.
      assert (Hu0 : (inject_Z up == 0)%Q) by lra.
      assert (Hb : Num.Qzero_b (inject_Z up) = true) by (apply Qeq_bool_iff, Hu0).
      rewrite Hb. exists 0%Q. cbn. split; [reflexivity|].
      split; [lra|]. split; [lra|]. intros _. reflexivity.
    + apply Qzero_b_false in E.
      assert (Hs : (0 < inject_Z up + inject_Z down)%Q) by lra.
      assert (Hq0 : (0 <= inject_Z up / (inject_Z up + inject_Z down))%Q)
        by (apply Qle_shift_div_l; [exact Hs | lra]).
      assert (Hq1 : (inject_Z up / (inject_Z up + inject_Z down) <= 1)%Q)
        by (apply Qle_shift_div_r; [exact Hs | lra]).
      cbn [num_or_zero].
      destruct (Num.Qzero_b (inject_Z up / (inject_Z up + inject_Z down))) eqn:E2.
      * exists 0%Q. split; [reflexivity|]. split; [lra|]. split; [lra|].
        intros _. reflexivity.
      * eexists. split; [reflexivity|]. split; [exact Hq0|]. split; [exact Hq1|].
        intros H0. rewrite H0 in *. field. intros C. apply E. rewrite C. reflexivity.
Qed.

Lemma processAuditStats_ratio_witness :
  exists q : Q,
    LegacyStats.ratio (LegacyStats.processAuditStats sampleVotes) = Fin q
    /\ (0 <= q)%Q /\ (q <= 1)%Q.
Proof.
  destruct (processAuditStats_ratio sampleVotes) as [_ H].
  destruct H as (q & Hq & H0 & H1 & _).
  - intros t Ht Hty. unfold sampleVotes in Ht.
    apply elem_of_cons in Ht as [->|Ht]; [simpl; lia|].
    apply elem_of_cons in Ht as [->|Ht]; [simpl; lia|].
    apply elem_of_cons in Ht as [->|Ht]; [|inversion Ht].
    destruct Hty as [Hty|Hty]; discriminate Hty.
  - exists q. split; [exact Hq|]. split; [exact H0 | exact H1].
Defined.


(** 23 of 40 is 57.49999999999999 percent in binary64 and is shown as 57,
    where the exact 57.5 would be shown as 58. *)
Example createPassFailChart_23_of_40 :
  percent (createPassFailChart progress23of40) = Fin 57.
Proof. vm_compute. reflexivity. Qed.


(** X9. For every finite pass rate the two bars of [createProgressChart] are
    adjacent and their widths add up to 80; for a pass rate between 0 and 1
    neither width is negative. *)
Theorem createProgressChart_segments (passRate : Q) :
  exists w1 w2 : Q,
    List.map r_width (createProgressChart (Fin passRate)) = [Fin w1; Fin w2]
    /\ (w1 + w2 == 80)%Q
    /\ Forall2 Num.eq (List.map r_x (createProgressChart (Fin passRate)))
                       [Fin 10; Fin (10 + w1)]
    /\ ((0 <= passRate)%Q -> (passRate <= 1)%Q -> (0 <= w1)%Q /\ (0 <= w2)%Q).
Proof.
  exists (passRate * 80)%Q, ((1 + - passRate) * 80)%Q.
  split; [reflexivity|]. split; [ring|].
  split; [pairwise_eq; cbn [Num.eq]; reflexivity|].
  intros H0 H1. split; lra.
Qed.

Lemma createProgressChart_segments_witness :
  exists w1 w2 : Q,
    List.map r_width (createProgressChart (Fin (3 # 4))) = [Fin w1; Fin w2]
    /\ (0 <= w1)%Q /\ (0 <= w2)%Q.
Proof.
  destruct (createProgressChart_segments (3 # 4)) as (w1 & w2 & Hw & _ & _ & H).
  exists w1, w2. split; [exact Hw|]. apply H; lra.
Defined.

End Ratios.

(** ** The timeline path on regular inputs *)

Section Timeline.

Import SVGUtils.

Lemma max2_ofZ (a b : Z) : Num.max2 (Num.ofZ a) (Num.ofZ b) = Num.ofZ (Z.max a b).
Proof.
  unfold Num.max2, Num.ofZ, Num.gtb.
  destruct (Qle_bool (inject_Z b) (inject_Z a)) eqn:E; cbn [negb].
  - apply Qle_bool_iff in E. rewrite <- Zle_Qle in E.
    rewrite Z.max_l by exact E. reflexivity.
  - assert (H : ~ (b <= a)).
    { intros C. rewrite Zle_Qle in C. apply Qle_bool_iff in C. congruence. }
    rewrite Z.max_r by lia. reflexivity.
Qed.

Lemma fold_max2_ofZ (zs : list Z) (z0 : Z) :
  fold_left Num.max2 (List.map Num.ofZ zs) (Num.ofZ z0) = Num.ofZ (fold_left Z.max zs z0).
Proof.
  revert z0. induction zs as [|z zs IH]; intros z0; [reflexivity|].
  cbn [List.map fold_left]. rewrite max2_ofZ. apply IH.
Qed.

Lemma fold_Zmax_spec (zs : list Z) (z0 : Z) :
  (fold_left Z.max zs z0 = z0 \/ In (fold_left Z.max zs z0) zs)
  /\ z0 <= fold_left Z.max zs z0
  /\ forall z, In z zs -> z <= fold_left Z.max zs z0.
Proof.
  revert z0. induction zs as [|z zs IH]; intros z0; cbn [fold_left].
  - split; [left; reflexivity|]. split; [lia|]. intros z [].
  - destruct (IH (Z.max z0 z)) as (Hin & Hge & Hall). split; [|split].
    + destruct Hin as [Hin|Hin].
      * destruct (Z.max_spec z0 z) as [[_ E]|[_ E]]; rewrite E in *.
        -- right. left. symmetry. exact Hin.
        -- left. exact Hin.
      * right. right. exact Hin.
    + lia.
    + intros z' [<-|Hz']; [lia | apply Hall, Hz'].
Qed.

(** [Math.max] of a non-empty array of integers is its greatest element. *)
Lemma max_ofZ (zs : list Z) :
  zs <> [] ->
  exists m, Num.max (List.map Num.ofZ zs) = Num.ofZ m
            /\ In m zs /\ forall z, In z zs -> z <= m.
Proof.
  destruct zs as [|z0 zs]; [contradiction|]. intros _.
  unfold Num.max. cbn [List.map fold_left].
  change (Num.max2 NegInf (Num.ofZ z0)) with (Num.ofZ z0).
  rewrite fold_max2_ofZ.
  destruct (fold_Zmax_spec zs z0) as (Hin & Hge & Hall).
  eexists. split; [reflexivity|]. split.
  - destruct Hin as [->|Hin]; [left; reflexivity | right; exact Hin].
  - intros z [<-|Hz]; [exact Hge | apply Hall, Hz].
Qed.

Lemma cmd_x_if (b : bool) (x y : number) :
  cmd_x (if b then MoveTo x y else LineTo x y) = x.
Proof. destruct b; reflexivity. Qed.

Lemma cmd_y_if (b : bool) (x y : number) :
  cmd_y (if b then MoveTo x y else LineTo x y) = y.
Proof. destruct b; reflexivity. Qed.

(** X10. On two points or more [calculateTimelinePath] emits one command per
    point, a move for the first and lines for the others, at the abscissas
    i / (n - 1) * 100, so that the path runs from x = 0 to x = 100. With a
    greatest amount m other than 0 the ordinate of a point is
    50 - amount / m * 50, which lies between 0 and 50 when no amount is
    negative. *)
Theorem calculateTimelinePath_regular (xpData : list GraphQLService.TimelineEntry) :
  (2 <= length xpData)%nat ->
  let path := calculateTimelinePath xpData in
  let n := inject_Z (Z.of_nat (length xpData)) in
  length path = length xpData
  /\ (forall i c, path !! i = Some c ->
        Num.eq (cmd_x c) (Fin (inject_Z (Z.of_nat i) / (n - 1) * 100))
        /\ (c = MoveTo (cmd_x c) (cmd_y c) <-> i = 0%nat))
  /\ exists m : Z,
       (exists d, d ∈ xpData /\ GraphQLService.tl_amount d = m)
       /\ (forall d, d ∈ xpData -> GraphQLService.tl_amount d <= m)
       /\ (m <> 0 ->
           forall i c d, path !! i = Some c -> xpData !! i = Some d ->
             exists y : Q,
               cmd_y c = Fin y
               /\ (y == 50 - inject_Z (GraphQLService.tl_amount d) / inject_Z m * 50)%Q
               /\ (0 <= GraphQLService.tl_amount d -> (0 <= y)%Q /\ (y <= 50)%Q)).
Proof.
  intros Hlen path n.
  assert (Hne : Nat.eqb (length xpData) 0 = false) by (apply Nat.eqb_neq; lia).
  destruct (max_ofZ (List.map GraphQLService.tl_amount xpData)) as (m & Hm & Hin & Hall).
  { destruct xpData; [simpl in Hlen; lia | discriminate]. }
  rewrite List.map_map in Hm.
  assert (Hpath : path = imap (fun i d =>
             let x := Num.mul
                        (Num.div (Num.ofNat i)
                                 (Num.sub (Num.ofNat (length xpData)) (Fin 1)))
                        (Fin 100) in
             let y := Num.sub (Fin 50)
                        (Num.mul (Num.div (Num.ofZ (GraphQLService.tl_amount d))
                                          (Num.ofZ m))
                                 (Fin 50)) in
             if Nat.eqb i 0 then MoveTo x y else LineTo x y) xpData).
  { unfold path, calculateTimelinePath. rewrite Hne, Hm. reflexivity. }
  assert (Hn1 : Num.Qzero_b (n + - (1)) = false).
  { unfold Num.Qzero_b. destruct (Qeq_bool (n + - (1)) 0) eqn:E; [|reflexivity].
    apply Qeq_bool_eq in E. unfold n in E.
    assert (H2 : (inject_Z 2 <= inject_Z (Z.of_nat (length xpData)))%Q)
      by (rewrite <- Zle_Qle; lia).
    change (inject_Z 2) with 2%Q in H2. lra. }
  split; [rewrite Hpath; apply length_imap|].
  split.
  - intros i c Hc. rewrite Hpath, list_lookup_imap in Hc.
    destruct (xpData !! i) as [d|]; [|discriminate].
    apply (inj Some) in Hc. subst c. cbv zeta.
    rewrite cmd_x_if, cmd_y_if.
    unfold Num.ofNat. cbn [Num.sub Num.opp Num.add]. fold n.
    rewrite (div_Fin _ _ Hn1). cbn [Num.mul Num.eq].
    split; [reflexivity|].
    destruct i as [|i]; cbn [Nat.eqb]; split; try reflexivity; discriminate.
  - exists m. split; [|split].
    + apply in_map_iff in Hin as (d & Hd & Hin). exists d.
      split; [apply list_elem_of_In, Hin | exact Hd].
    + intros d Hd. apply Hall, in_map, list_elem_of_In, Hd.
    + intros Hm0 i c d Hc Hd. rewrite Hpath, list_lookup_imap, Hd in Hc.
      apply (inj Some) in Hc. subst c. cbv zeta. rewrite cmd_y_if.
      unfold Num.ofZ. rewrite (div_Fin _ _ (Qzero_b_inject m Hm0)).
      cbn [Num.mul Num.sub Num.opp Num.add].
      eexists. split; [reflexivity|]. split; [ring|].
      intros Hd0.
      assert (Hdm : GraphQLService.tl_amount d <= m)
        by (apply Hall, in_map, list_elem_of_In, (list_elem_of_lookup_2 _ _ _ Hd)).
      assert (Hmpos : (0 < inject_Z m)%Q) by (rewrite <- (Zlt_Qlt 0); lia).
      assert (Hd1 : (0 <= inject_Z (GraphQLService.tl_amount d))%Q)
        by (rewrite <- (Zle_Qle 0); exact Hd0).
      assert (Hd2 : (inject_Z (GraphQLService.tl_amount d) <= inject_Z m)%Q)
        by (rewrite <- Zle_Qle; exact Hdm).
      assert (Hq0 : (0 <= inject_Z (GraphQLService.tl_amount d) / inject_Z m)%Q)
        by (apply Qle_shift_div_l; [exact Hmpos | lra]).
      assert (Hq1 : (inject_Z (GraphQLService.tl_amount d) / inject_Z m <= 1)%Q)
        by (apply Qle_shift_div_r; [exact Hmpos | lra]).
      split; lra.
Qed.

Lemma calculateTimelinePath_regular_witness :
  length (calculateTimelinePath [entryOf 50; entryOf 30]) = 2%nat
  /\ exists c y, calculateTimelinePath [entryOf 50; entryOf 30] !! 1%nat = Some c
                 /\ cmd_y c = Fin y /\ (0 <= y)%Q /\ (y <= 50)%Q.
Proof.
  destruct (calculateTimelinePath_regular [entryOf 50; entryOf 30])
    as (Hl & _ & m & (d0 & Hd0 & Hm) & Hall & Hy); [simpl; lia|].
  split; [exact Hl|].
  assert (Hm0 : m <> 0).
  { specialize (Hall (entryOf 50) ltac:(left)). simpl in Hall. lia. }
  destruct (Hy Hm0 1%nat _ (entryOf 30) eq_refl eq_refl) as (y & Hyc & _ & Hb).
  eexists. exists y. split; [reflexivity|]. split; [exact Hyc|].
  apply Hb. simpl. lia.
Defined.

End Timeline.

(** ** The pie chart scene *)

Section PieScene.

Import ProfileView.

Lemma sortInsert_perm {A} (keep : A -> A -> bool) (x : A) (l : list A) :
  sortInsert keep x l ≡ₚ x :: l.
Proof.
  induction l as [|y l IH]; [reflexivity|].
  cbn [sortInsert]. destruct (keep x y); [reflexivity|].
  rewrite IH. apply perm_swap.
Qed.

Lemma sortBy_perm {A} (keep : A -> A -> bool) (l : list A) : sortBy keep l ≡ₚ l.
Proof.
  induction l as [|x l IH]; [reflexivity|].
  cbn [sortBy fold_right]. fold (sortBy keep l).
  rewrite sortInsert_perm, IH. reflexivity.
Qed.

Lemma sortInsert_sorted {A} (keep : A -> A -> bool) (x : A) (l : list A) :
  (forall a b, keep a b = true \/ keep b a = true) ->
  Sorted (fun a b => keep a b = true) l ->
  Sorted (fun a b => keep a b = true) (sortInsert keep x l).
Proof.
  intros Htot Hs. induction Hs as [|y l Hs IH Hd]; cbn [sortInsert].
  - repeat constructor.
  - destruct (keep x y) eqn:E.
    + constructor; [constructor; assumption | constructor; exact E].
    + constructor; [exact IH|].
      destruct l as [|z l]; cbn [sortInsert].
      * constructor. destruct (Htot y x) as [H|H]; [exact H | congruence].
      * destruct (keep x z); constructor.
        -- destruct (Htot y x) as [H|H]; [exact H | congruence].
        -- inversion Hd; assumption.
Qed.

(** On a comparator that orders any two elements one way or the other the
    sort returns its input rearranged in order. *)
Lemma sortBy_sorted {A} (keep : A -> A -> bool) (l : list A) :
  (forall a b, keep a b = true \/ keep b a = true) ->
  Sorted (fun a b => keep a b = true) (sortBy keep l).
Proof.
  intros Htot. induction l as [|x l IH]; [constructor|].
  cbn [sortBy fold_right]. fold (sortBy keep l).
  apply sortInsert_sorted; assumption.
Qed.

Lemma toProject_finite (e : string * Z) :
  p_amount (toProject e)
  = Fin (inject_Z (Qfloor (inject_Z e.2 / 1000 + (1 # 2)))).
Proof. reflexivity. Qed.

Lemma keepOrder_finite (a b : Project) (x y : Q) :
  p_amount a = Fin x -> p_amount b = Fin y ->
  keepOrder a b = true <-> (y <= x)%Q.
Proof.
  intros Ha Hb. unfold keepOrder. rewrite Ha, Hb.
  cbn [Num.sub Num.opp Num.add Num.gtb]. rewrite Bool.negb_involutive.
  rewrite Qle_bool_iff. split; intros H; lra.
Qed.

Lemma drawSlices_data (T : number) (ps : list Project) :
  forall (a : number) (i : nat),
    List.map (fun s => (s_project s, s_amount s)) (slices (drawSlices T a i ps))
    = List.map (fun p => (project p, p_amount p)) ps.
Proof.
  induction ps as [|p ps IH]; intros a i; [reflexivity|].
  cbn [drawSlices]. rewrite slices_cons_path.
  2:{ destruct (Num.gtb (Num.div (p_amount p) T) (Fin (3 # 100))); eauto. }
  cbn [List.map s_project s_amount]. f_equal. apply IH.
Qed.

(** X11. When some entry matches, the pie has exactly one slice per matching
    entry: the slices are the matching projects (name and amount in kB)
    rearranged, and they come in order of amount, greatest first. *)
Theorem renderProjectPieChart_slices_sorted (xpByPath : list (string * Z)) :
  List.filter isModuleProject xpByPath <> [] ->
  let sl := slices (children (renderProjectPieChart xpByPath)) in
  List.map (fun s => (s_project s, s_amount s)) sl
  ≡ₚ List.map (fun e => (project (toProject e), p_amount (toProject e)))
              (List.filter isModuleProject xpByPath)
  /\ Sorted finiteGe (List.map s_amount sl).
Proof.
  intros Hne sl. subst sl. rewrite (renderProjectPieChart_slices xpByPath Hne).
  cbv zeta.
  set (ps := List.map toProject (List.filter isModuleProject xpByPath)).
  split.
  - rewrite drawSlices_data.
    transitivity (List.map (fun p => (project p, p_amount p)) ps).
    + apply Permutation_map, sortBy_perm.
    + unfold ps. rewrite List.map_map. reflexivity.
  - assert (Hfin : forall p, In p (sortBy keepOrder ps) ->
                             exists x, p_amount p = Fin x).
    { intros p Hp. apply (Permutation_in _ (sortBy_perm keepOrder ps)) in Hp.
      unfold ps in Hp. apply in_map_iff in Hp as (e & <- & _).
      eexists. apply toProject_finite. }
    assert (Hs : Sorted (fun a b => keepOrder a b = true) (sortBy keepOrder ps)).
    { apply sortBy_sorted. intros a b. unfold keepOrder.
      destruct (p_amount a) as [x| | |], (p_amount b) as [y| | |];
        cbn [Num.sub Num.opp Num.add Num.gtb negb]; auto.
      rewrite !Bool.negb_involutive.
      destruct (Qle_bool (y + - x) 0) eqn:E1; [left; reflexivity|].
      right. apply Qle_bool_iff.
      assert (~ (y + - x <= 0)%Q) by (intros C; apply Qle_bool_iff in C; congruence).
      lra. }
    assert (Hmap : List.map s_amount
                     (slices (drawSlices (totalOf (sortBy keepOrder ps))
                                (Num.div (Num.opp Math_PI) (Fin 2)) 0
                                (sortBy keepOrder ps)))
                   = List.map p_amount (sortBy keepOrder ps)).
    { pose proof (drawSlices_data (totalOf (sortBy keepOrder ps)) (sortBy keepOrder ps)
                    (Num.div (Num.opp Math_PI) (Fin 2)) 0%nat) as H.
      apply (f_equal (List.map snd)) in H. rewrite !List.map_map in H. exact H. }
    rewrite Hmap. clear Hmap.
    induction Hs as [|p l Hs IH Hd]; [constructor|].
    cbn [List.map]. constructor.
    + apply IH. intros q Hq. apply Hfin. right. exact Hq.
    + destruct Hd as [|q l Hpq]; cbn [List.map]; constructor.
      destruct (Hfin p (or_introl eq_refl)) as [x Hx].
      destruct (Hfin q (or_intror (or_introl eq_refl))) as [y Hy].
      unfold finiteGe. rewrite Hx, Hy.
      apply (keepOrder_finite p q x y Hx Hy), Hpq.
Qed.

Lemma renderProjectPieChart_slices_sorted_witness :
  Sorted finiteGe
    (List.map s_amount
       (slices (children (renderProjectPieChart
                            [("/bahrain/bh-module/foo", 4000);
                             ("/bahrain/bh-module/bar", 12000)])))).
Proof.
  destruct (renderProjectPieChart_slices_sorted
              [("/bahrain/bh-module/foo", 4000); ("/bahrain/bh-module/bar", 12000)])
    as [_ H]; [discriminate|].
  exact H.
Defined.

Lemma legendRects_app (l1 l2 : list Primitive) :
  legendRects (l1 ++ l2) = legendRects l1 ++ legendRects l2.
Proof. unfold legendRects. apply omap_app. Qed.

Lemma legendRects_slices (T : number) (ps : list Project) :
  forall (a : number) (i : nat), legendRects (drawSlices T a i ps) = [].
Proof.
  induction ps as [|p ps IH]; intros a i; [reflexivity|].
  cbn [drawSlices].
  destruct (Num.gtb (Num.div (p_amount p) T) (Fin (3 # 100)));
    cbn [app legendRects omap]; apply IH.
Qed.

Lemma legendRects_concat_imap (ps : list Project) :
  forall (f : nat -> Project -> list Primitive) (g : nat -> Z * Z * Z * Z),
    (forall i p, legendRects (f i p) = [g i]) ->
    legendRects (concat (imap f ps)) = imap (fun i _ => g i) ps.
Proof.
  induction ps as [|p ps IH]; intros f g Hf; [reflexivity|].
  rewrite !imap_cons. cbn [concat]. rewrite legendRects_app, Hf.
  cbn [app]. f_equal. apply (IH (f ∘ Datatypes.S) (g ∘ Datatypes.S)).
  intros i q. apply Hf.
Qed.

Lemma legendRects_legend (T : number) (ps : list Project) :
  legendRects (drawLegend T ps) = imap (fun i _ => legendSlot i) ps.
Proof. unfold drawLegend. apply legendRects_concat_imap. reflexivity. Qed.

Lemma legendSlot_disjoint (i j : nat) :
  i <> j -> disjointRects (legendSlot i) (legendSlot j).
Proof.
  intros Hij. unfold disjointRects, legendSlot, rectWidth, rectMargin, rectHeight,
    legendStartY, titleHeight, pieChartHeight.
  pose proof (Nat.div_mod_eq i 2) as Hi. pose proof (Nat.div_mod_eq j 2) as Hj.
  pose proof (Nat.mod_upper_bound i 2 ltac:(lia)) as Hi2.
  pose proof (Nat.mod_upper_bound j 2 ltac:(lia)) as Hj2.
  destruct (Nat.eq_dec (i / 2)%nat (j / 2)%nat) as [E|E].
  - destruct (Nat.eqb_spec (i mod 2) 0), (Nat.eqb_spec (j mod 2) 0); lia.
  - assert (Z.of_nat (i / 2) + 1 <= Z.of_nat (j / 2)
            \/ Z.of_nat (j / 2) + 1 <= Z.of_nat (i / 2)) as [H|H] by lia.
    + right. right. left. lia.
    + right. right. right. lia.
Qed.

(** X12. When some entry matches, the container is given the height
    590 + 50 * ceil(N / 2) for N matching entries, the legend has one
    rectangle per entry, every rectangle lies inside the view box of width
    1000 between the start of the legend and 30 above the bottom, and no two
    rectangles overlap. *)
Theorem renderProjectPieChart_legend_layout (xpByPath : list (string * Z)) :
  List.filter isModuleProject xpByPath <> [] ->
  let scene := renderProjectPieChart xpByPath in
  let N := length (List.filter isModuleProject xpByPath) in
  let rects := legendRects (children scene) in
  containerHeight scene = Some (590 + 50 * ((Z.of_nat N + 1) / 2))
  /\ length rects = N
  /\ (forall i x y w h, rects !! i = Some (x, y, w, h) ->
        0 <= x /\ x + w <= 1000
        /\ 560 <= y /\ y + h + 30 <= 590 + 50 * ((Z.of_nat N + 1) / 2))
  /\ (forall i j r r', i <> j -> rects !! i = Some r -> rects !! j = Some r' ->
        disjointRects r r').
Proof.
  intros Hne scene N rects.
  set (ps := sortBy keepOrder (List.map toProject (List.filter isModuleProject xpByPath))).
  assert (Hps : length ps = N).
  { unfold ps. rewrite sortBy_length, length_map. reflexivity. }
  assert (Hscene : containerHeight scene = Some (totalHeight N)
                   /\ rects = imap (fun i _ => legendSlot i) ps).
  { assert (Hpos : Nat.eqb (length (List.map toProject
                                      (List.filter isModuleProject xpByPath))) 0 = false).
    { destruct (List.filter isModuleProject xpByPath); [contradiction | reflexivity]. }
    unfold rects, scene, renderProjectPieChart. rewrite Hpos.
    cbn [children containerHeight]. fold ps. rewrite Hps. split; [reflexivity|].
    rewrite !legendRects_app, legendRects_slices, legendRects_legend. reflexivity. }
  destruct Hscene as [Hh Hr].
  assert (Hlook : forall i r, rects !! i = Some r -> (i < N)%nat /\ r = legendSlot i).
  { intros i r Hi. rewrite Hr, list_lookup_imap in Hi.
    destruct (ps !! i) as [p|] eqn:Ep; [|discriminate].
    apply lookup_lt_Some in Ep. apply (inj Some) in Hi. split; [lia | congruence]. }
  split.
  { rewrite Hh. f_equal. unfold totalHeight, rowsNeeded, legendStartY, titleHeight,
      pieChartHeight, rectHeight, rectMargin. lia. }
  split; [rewrite Hr, length_imap; exact Hps|].
  split.
  - intros i x y w h Hi. destruct (Hlook i _ Hi) as [HiN Hs].
    assert (Hx : x = (legendSlot i).1.1.1) by (rewrite <- Hs; reflexivity).
    assert (Hy : y = (legendSlot i).1.1.2) by (rewrite <- Hs; reflexivity).
    assert (Hw : w = (legendSlot i).1.2) by (rewrite <- Hs; reflexivity).
    assert (Hh' : h = (legendSlot i).2) by (rewrite <- Hs; reflexivity).
    unfold legendSlot, rectWidth, rectMargin, rectHeight,
      legendStartY, titleHeight, pieChartHeight in Hx, Hy, Hw, Hh'.
    cbn [fst snd] in Hx, Hy, Hw, Hh'. subst w h y.
    assert (Hdiv : Z.of_nat (i / 2) + 1 <= (Z.of_nat N + 1) / 2).
    { rewrite Nat2Z.inj_div. change (Z.of_nat 2) with 2.
      Z.div_mod_to_equations. lia. }
    destruct (Nat.eqb (i mod 2) 0); subst x; lia.
  - intros i j r r' Hij Hi Hj.
    destruct (Hlook i r Hi) as [_ ->]. destruct (Hlook j r' Hj) as [_ ->].
    apply legendSlot_disjoint, Hij.
Qed.

Lemma renderProjectPieChart_legend_layout_witness :
  containerHeight (renderProjectPieChart
                     [("/bahrain/bh-module/foo", 4000); ("/bahrain/bh-module/bar", 12000);
                      ("/bahrain/bh-module/baz", 700)])
  = Some 690.
Proof.
  destruct (renderProjectPieChart_legend_layout
              [("/bahrain/bh-module/foo", 4000); ("/bahrain/bh-module/bar", 12000);
               ("/bahrain/bh-module/baz", 700)]) as [H _]; [discriminate|].
  exact H.
Defined.

End PieScene.

(** ** The filter of module projects *)

Section ModuleFilter.

Import JSString ProfileView.

Lemma append_cons (d : ascii) (a s : string) :
  String.append (String d a) s = String d (String.append a s).
Proof. reflexivity. Qed.

Lemma append_snoc (a : string) (c : ascii) (s : string) :
  String.append (String.append a (String c EmptyString)) s = String.append a (String c s).
Proof.
  induction a as [|d a IH]; [reflexivity|].
  rewrite !append_cons, IH. reflexivity.
Qed.

Lemma append_empty_r (a : string) : String.append a EmptyString = a.
Proof.
  induction a as [|d a IH]; [reflexivity|].
  rewrite append_cons, IH. reflexivity.
Qed.

Lemma includes_slash_cons (c : ascii) (s : string) :
  includes "/" (String c s) = false -> c <> "/"%char /\ includes "/" s = false.
Proof.
  cbn [includes String.prefix]. intros H.
  destruct (ascii_dec "/" c) as [E|E].
  - destruct s; discriminate H.
  - split; [congruence | exact H].
Qed.

Lemma splitFrom_nonempty (sep s : string) :
  forall (skip : nat) (cur : string), splitFrom sep s skip cur <> [].
Proof.
  induction s as [|c s IH]; intros skip cur; cbn [splitFrom]; [discriminate|].
  destruct skip; [|apply IH].
  destruct (String.prefix sep (String c s)); [discriminate | apply IH].
Qed.

(** A split that finds no separator returns the whole string. *)
Lemma splitFrom_single (sep s : string) :
  forall cur x : string, splitFrom sep s 0 cur = [x] -> x = String.append cur s.
Proof.
  induction s as [|c s IH]; intros cur x H; cbn [splitFrom] in H.
  - injection H as <-. symmetry. apply append_empty_r.
  - destruct (String.prefix sep (String c s)).
    + injection H as _ H. exfalso. exact (splitFrom_nonempty _ _ _ _ H).
    + apply IH in H. rewrite H. apply append_snoc.
Qed.

Lemma splitFrom_no_slash (s : string) :
  includes "/" s = false ->
  forall cur : string, splitFrom moduleMarker s 0 cur = [String.append cur s].
Proof.
  induction s as [|c s IH]; intros H cur; cbn [splitFrom].
  - rewrite append_empty_r. reflexivity.
  - apply includes_slash_cons in H as [Hc Hs].
    assert (Hp : String.prefix moduleMarker (String c s) = false).
    { unfold moduleMarker. cbn [String.prefix].
      destruct (ascii_dec "/" c) as [E|E]; [congruence | reflexivity]. }
    rewrite Hp, (IH Hs). rewrite append_snoc. reflexivity.
Qed.

Lemma split_marker_prefix (after : string) :
  split moduleMarker (String.append moduleMarker after)
  = EmptyString :: splitFrom moduleMarker after 0 EmptyString.
Proof. destruct after; reflexivity. Qed.

(** X13. For a key that starts with the marker [/bahrain/bh-module/] the
    filter of the pie chart accepts the entry exactly when nothing after the
    marker contains a slash; an accepted entry becomes the project named by
    what follows the marker, with its amount rounded to kB. *)
Theorem isModuleProject_after_marker (after : string) (amount : Z) :
  let path := String.append moduleMarker after in
  isModuleProject (path, amount) = negb (includes "/" after)
  /\ (includes "/" after = false ->
      toProject (path, amount)
      = mkProject after (Fin (inject_Z (Qfloor (inject_Z amount / 1000 + (1 # 2))))) path).
Proof.
  intros path. subst path. split.
  - unfold isModuleProject. cbn [fst].
    assert (H1 : String.eqb (String.append moduleMarker after) "" = false) by reflexivity.
    assert (H2 : includes moduleMarker (String.append moduleMarker after) = true)
      by (destruct after; reflexivity).
    rewrite H1, H2, split_marker_prefix. cbn [orb negb].
    destruct (splitFrom moduleMarker after 0 EmptyString) as [|x [|y l]] eqn:E.
    + exfalso. exact (splitFrom_nonempty _ _ _ _ E).
    + apply splitFrom_single in E. rewrite E. reflexivity.
    + destruct (includes "/" after) eqn:Hs; [reflexivity|].
      rewrite (splitFrom_no_slash after Hs) in E. discriminate E.
  - intros Hs. unfold toProject. cbn [fst snd].
    rewrite split_marker_prefix, (splitFrom_no_slash after Hs). reflexivity.
Qed.

Lemma isModuleProject_after_marker_witness :
  toProject ("/bahrain/bh-module/graphql", 12345)
  = mkProject "graphql" (Fin (inject_Z (Qfloor (inject_Z 12345 / 1000 + (1 # 2)))))
              "/bahrain/bh-module/graphql".
Proof.
  destruct (isModuleProject_after_marker "graphql" 12345) as [_ H].
  apply H. reflexivity.
Defined.

End ModuleFilter.

(** ** Errors and tokens *)

Section SessionAndAuth.

Import JSString Session Auth.

Lemma includes_app_r (sub a b : string) :
  includes sub b = true -> includes sub (String.append a b) = true.
Proof.
  intros H. induction a as [|c a IH]; [exact H|].
  rewrite append_cons. cbn [includes]. rewrite IH. apply Bool.orb_true_r.
Qed.

(** X14. Whenever [query] dispatches the [auth:logout] event (the token is
    missing or empty, or the first GraphQL error mentions JWT) it raises an
    error that [handleError] answers with an immediate logout, so the two
    logout paths agree. The error for a missing user record is not an
    authentication error: it is answered by the error panel and a logout
    after 2000 ms. *)
Theorem query_logout_is_immediate (token : option string) (reply : Reply) :
  ((query token reply).1 = 1%nat ->
   exists message,
     (query token reply).2 = Raised message /\ handleError message = [LogoutNow])
  /\ handleError "Invalid response structure from GraphQL"
     = [ShowErrorPanel; LogoutAfter 2000].
Proof.
  split; [|reflexivity].
  unfold query. destruct (or_string token "") as [|c t].
  - intros _. eexists. split; reflexivity.
  - destruct reply as [message|[[first rest]|] data]; cbn [fst snd];
      try discriminate.
    destruct (includes "JWT" first) eqn:E; [|discriminate].
    intros _. eexists. split; [reflexivity|].
    unfold handleError.
    rewrite (includes_app_r "JWT" "GraphQL query failed: " first E).
    rewrite Bool.orb_true_r. reflexivity.
Qed.

Lemma query_logout_is_immediate_witness :
  exists message,
    (query (Some "a.b.c") (Body (Some ("Could not verify JWT", [])) None)).2
    = Raised message
    /\ handleError message = [LogoutNow].
Proof.
  destruct (query_logout_is_immediate
              (Some "a.b.c") (Body (Some ("Could not verify JWT", [])) None)) as [H _].
  apply H. reflexivity.
Defined.

(** X15. [query] returns the data exactly when a non-empty token is stored
    and the body carries no [errors] entry, and then no logout event is
    dispatched; every error raised for a reply, as opposed to the missing
    token, carries the prefix "GraphQL query failed: ". *)
Theorem query_returns_iff (token : option string) (reply : Reply)
        (data : option ResponseData) :
  ((query token reply).2 = Returned data
   <-> or_string token "" <> EmptyString /\ reply = Body None data)
  /\ ((query token reply).2 = Returned data -> (query token reply).1 = 0%nat)
  /\ (or_string token "" <> EmptyString ->
      forall message, (query token reply).2 = Raised message ->
        String.prefix "GraphQL query failed: " message = true).
Proof.
  unfold query. destruct (or_string token "") as [|c t].
  - split; [split|split]; try discriminate; try (intros [H _]; contradiction).
    intros H. contradiction.
  - destruct reply as [message|[[first rest]|] data']; cbn [fst snd].
    + split; [split|split]; try discriminate; try (intros [_ H]; discriminate H).
      intros _ m Hm. injection Hm as <-. destruct message; reflexivity.
    + split; [split|split]; try discriminate; try (intros [_ H]; discriminate H).
      intros _ m Hm. injection Hm as <-. destruct first; reflexivity.
    + split; [split|split].
      * intros H. injection H as ->. split; [discriminate | reflexivity].
      * intros [_ H]. injection H as ->. reflexivity.
      * reflexivity.
      * intros _ m Hm. discriminate Hm.
Qed.

Lemma query_returns_iff_witness :
  (query (Some "a.b.c") (Body None None)).2 = Returned None.
Proof.
  destruct (query_returns_iff (Some "a.b.c") (Body None None) None) as [[_ H] _].
  apply H. split; [discriminate | reflexivity].
Defined.

Lemma prefix_empty (s : string) : String.prefix EmptyString s = true.
Proof. destruct s; reflexivity. Qed.

Lemma splitFrom_dot_dot (s cur : string) :
  splitFrom "." (String "." s) 0 cur = cur :: splitFrom "." s 0 EmptyString.
Proof. cbn [splitFrom String.prefix]. rewrite prefix_empty. reflexivity. Qed.

Lemma splitFrom_dot_other (c : ascii) (s cur : string) :
  c <> "."%char ->
  splitFrom "." (String c s) 0 cur
  = splitFrom "." s 0 (String.append cur (String c EmptyString)).
Proof.
  intros Hc. cbn [splitFrom String.prefix].
  destruct (ascii_dec "." c) as [E|E]; [congruence | reflexivity].
Qed.

Lemma jwtChar_not_dot (c : ascii) : jwtChar c = true -> c <> "."%char.
Proof. intros H ->. discriminate H. Qed.

Lemma splitFrom_dot_part (a : string) :
  allChars jwtChar a = true ->
  forall (rest cur : string),
    splitFrom "." (String.append a (String "." rest)) 0 cur
    = String.append cur a :: splitFrom "." rest 0 EmptyString.
Proof.
  induction a as [|c a IH]; intros Ha rest cur.
  - change (String.append EmptyString (String "." rest)) with (String "." rest).
    rewrite splitFrom_dot_dot, append_empty_r. reflexivity.
  - cbn [allChars] in Ha. apply andb_prop in Ha as [Hc Ha].
    rewrite append_cons, (splitFrom_dot_other _ _ _ (jwtChar_not_dot c Hc)).
    rewrite (IH Ha), append_snoc. reflexivity.
Qed.

Lemma splitFrom_dot_last (a : string) :
  allChars jwtChar a = true ->
  forall cur : string, splitFrom "." a 0 cur = [String.append cur a].
Proof.
  induction a as [|c a IH]; intros Ha cur.
  - cbn [splitFrom]. rewrite append_empty_r. reflexivity.
  - cbn [allChars] in Ha. apply andb_prop in Ha as [Hc Ha].
    rewrite (splitFrom_dot_other _ _ _ (jwtChar_not_dot c Hc)).
    rewrite (IH Ha), append_snoc. reflexivity.
Qed.

Lemma allChars_app (f : ascii -> bool) (a b : string) :
  allChars f (String.append a b) = allChars f a && allChars f b.
Proof.
  induction a as [|c a IH]; [reflexivity|].
  rewrite append_cons. cbn [allChars]. rewrite IH. apply Bool.andb_assoc.
Qed.

Lemma parts_chars (s : string) :
  forall cur : string,
    forallb (allChars jwtChar) (splitFrom "." s 0 cur) = true ->
    allChars jwtChar cur = true /\ allChars tokenChar s = true.
Proof.
  induction s as [|c s IH]; intros cur H.
  - cbn in H. rewrite Bool.andb_true_r in H. split; [exact H | reflexivity].
  - destruct (ascii_dec c ".") as [->|Hc].
    + rewrite splitFrom_dot_dot in H. cbn [forallb] in H.
      apply andb_prop in H as [Hcur H]. apply IH in H as [_ Hs].
      split; [exact Hcur|]. cbn [allChars]. rewrite Hs. reflexivity.
    + rewrite (splitFrom_dot_other _ _ _ Hc) in H. apply IH in H as [Hcur Hs].
      rewrite allChars_app in Hcur. apply andb_prop in Hcur as [Hcur Hc'].
      cbn [allChars] in Hc'. rewrite Bool.andb_true_r in Hc'.
      split; [exact Hcur|]. cbn [allChars]. unfold tokenChar at 1.
      rewrite Hc', Hs. reflexivity.
Qed.

Lemma partOk_allChars (l : list string) :
  forallb partOk l = true -> forallb (allChars jwtChar) l = true.
Proof.
  induction l as [|x l IH]; [reflexivity|]. cbn [forallb]. intros H.
  apply andb_prop in H as [Hx Hl]. unfold partOk in Hx.
  apply andb_prop in Hx as [_ Hx]. rewrite Hx, (IH Hl). reflexivity.
Qed.

Lemma partOk_nonempty (a : string) :
  a <> EmptyString -> allChars jwtChar a = true -> partOk a = true.
Proof.
  intros Hne Ha. unfold partOk. rewrite Ha, Bool.andb_true_r.
  destruct a; [contradiction | reflexivity].
Qed.

(** X16. [isAuthenticated] accepts every stored token made of three
    non-empty parts over the token alphabet joined by dots. Every token it
    accepts passes the structure check of [login] and holds only characters
    of the alphabet and dots. The converse fails: the structure check of
    [login] lets "a..b" be stored, which [isAuthenticated] rejects. *)
Theorem isAuthenticated_shape :
  (forall a b c : string,
      a <> EmptyString -> b <> EmptyString -> c <> EmptyString ->
      allChars jwtChar a = true -> allChars jwtChar b = true ->
      allChars jwtChar c = true ->
      isAuthenticated (Some (dotted a b c)) = true)
  /\ (forall t : string,
        isAuthenticated (Some t) = true ->
        tokenStructureOk t = true /\ allChars tokenChar t = true)
  /\ (tokenStructureOk "a..b" = true /\ isAuthenticated (Some "a..b") = false).
Proof.
  split; [|split].
  - intros a b c Ha Hb Hc Ja Jb Jc. unfold isAuthenticated, dotted.
    assert (Hne : String.eqb (String.append a (String "."
                     (String.append b (String "." c)))) "" = false).
    { destruct a; [contradiction | reflexivity]. }
    rewrite Hne. unfold split.
    rewrite (splitFrom_dot_part a Ja), (splitFrom_dot_part b Jb), (splitFrom_dot_last c Jc).
    cbn [length Nat.eqb forallb andb].
    change (String.append EmptyString a) with a.
    change (String.append EmptyString b) with b.
    change (String.append EmptyString c) with c.
    rewrite (partOk_nonempty a Ha Ja), (partOk_nonempty b Hb Jb),
      (partOk_nonempty c Hc Jc). reflexivity.
  - intros t H. unfold isAuthenticated in H. unfold tokenStructureOk.
    destruct (String.eqb t "") eqn:E; [discriminate H|].
    apply andb_prop in H as [Hlen Hparts]. rewrite Hlen.
    split; [reflexivity|].
    apply partOk_allChars in Hparts. apply parts_chars in Hparts as [_ Hs]. exact Hs.
  - split; reflexivity.
Qed.

Lemma isAuthenticated_shape_witness :
  isAuthenticated (Some "eyJh.eyJz.sig_-9") = true
  /\ tokenStructureOk "eyJh.eyJz.sig_-9" = true.
Proof.
  destruct isAuthenticated_shape as (H1 & H2 & _).
  assert (H : isAuthenticated (Some (dotted "eyJh" "eyJz" "sig_-9")) = true)
    by (apply H1; [discriminate | discriminate | discriminate
                   | reflexivity | reflexivity | reflexivity]).
  split; [exact H | exact (proj1 (H2 _ H))].
Defined.

End SessionAndAuth.

(** ** Darkened colors *)

Section DarkenedColors.

Import JSString ProfileView.

Lemma isHexChar_hexDigit (x : Z) : isHexChar (hexDigit (x mod 16)) = true.
Proof.
  unfold isHexChar.
  rewrite (hexValue_hexDigit (x mod 16)) by (apply Z.mod_pos_bound; lia).
  reflexivity.
Qed.

Lemma isHexColor_digits6 (n : Z) : isHexColor (String "#" (digits6 n)) = true.
Proof.
  unfold digits6. cbn [isHexColor]. rewrite !isHexChar_hexDigit. reflexivity.
Qed.


Lemma clamp0_max (x : Z) : clamp0 x = Z.max 0 x.
Proof. unfold clamp0. destruct (x <? 0) eqn:E; lia. Qed.



(** Grey darkened by 50 percent keeps 128 - 127 = 1 on every channel. *)
Example darkenColor_grey_50 : darkenColor "#808080" 50 = "#010101".
Proof. vm_compute. reflexivity. Qed.

(** X18. Darkening a hex color twice, by percentages that are not negative,
    takes both amounts, each round(2.55 * percent) with the product in
    binary64, off every channel and stops at 0. *)
Theorem darkenColor_twice (color : string) (p q : Q) :
  isHexColor color = true -> (0 <= p)%Q -> (0 <= q)%Q ->
  channels (darkenColor (darkenColor color p) q)
  = (Z.max 0 ((channels color).1.1 - darkenAmount p - darkenAmount q),
     Z.max 0 ((channels color).1.2 - darkenAmount p - darkenAmount q),
     Z.max 0 ((channels color).2 - darkenAmount p - darkenAmount q)).
Proof.
  intros Hc Hp Hq.
  destruct (darkenColor_channels color p Hc Hp) as [Hch Hout].
  assert (Hhex : isHexColor (darkenColor color p) = true)
    by (rewrite Hout; apply isHexColor_digits6).
  destruct (darkenColor_channels (darkenColor color p) q Hhex Hq) as [Hch2 _].
  rewrite Hch2, Hch. cbn [fst snd].
  pose proof (darkenAmount_nonneg p Hp). pose proof (darkenAmount_nonneg q Hq).
  rewrite !clamp0_max. f_equal; [f_equal|]; lia.
Qed.

Lemma darkenColor_twice_witness :
  channels (darkenColor (darkenColor "#ffffff" 50) 0) = (128, 128, 128).
Proof.
  rewrite (darkenColor_twice "#ffffff" 50 0); [reflexivity | reflexivity | lra | lra].
Defined.

End DarkenedColors.

(** ** The distribution of projects over categories *)

Section Distribution.

Import SVGUtils SVGCharts.

Lemma get_count (category : string) (completed : bool)
      (categories : list (string * Category)) (k : string) :
  JSObject.get (countOwn category completed categories) k
  = if String.eqb category k
    then Some (match JSObject.get categories category with
               | None => mkCategory 1 (if completed then 1 else 0)
               | Some c => mkCategory (c_total c + 1)
                             (if completed then c_completed c + 1 else c_completed c)
               end)
    else JSObject.get categories k.
Proof.
  induction categories as [|[k' c] rest IH].
  - cbn [countOwn JSObject.get]. destruct (String.eqb category k); reflexivity.
  - cbn [countOwn JSObject.get]. destruct (String.eqb_spec k' category) as [->|Hne].
    + cbn [JSObject.get]. destruct (String.eqb category k); reflexivity.
    + cbn [JSObject.get]. rewrite IH.
      destruct (String.eqb_spec k' k) as [->|Hk]; [|reflexivity].
      destruct (String.eqb_spec category k) as [->|_]; [contradiction | reflexivity].
Qed.

Lemma count_keys (category : string) (completed : bool)
      (categories : list (string * Category)) :
  List.map fst (countOwn category completed categories)
  = match JSObject.get categories category with
    | Some _ => List.map fst categories
    | None => List.map fst categories ++ [category]
    end.
Proof.
  induction categories as [|[k' c] rest IH]; [reflexivity|].
  cbn [countOwn JSObject.get]. destruct (String.eqb k' category); [reflexivity|].
  cbn [List.map fst]. rewrite IH.
  destruct (JSObject.get rest category); reflexivity.
Qed.

Lemma get_None_keys {V} (o : list (string * V)) (k : string) :
  JSObject.get o k = None -> k ∉ List.map fst o.
Proof.
  induction o as [|[k' v] o IH]; cbn [JSObject.get List.map fst].
  - intros _ H. inversion H.
  - destruct (String.eqb_spec k' k) as [->|Hne]; [discriminate|].
    intros H Hin. apply elem_of_cons in Hin as [->|Hin]; [contradiction|].
    exact (IH H Hin).
Qed.

Lemma get_Some_keys {V} (o : list (string * V)) (k : string) :
  k ∈ List.map fst o -> is_Some (JSObject.get o k).
Proof.
  induction o as [|[k' v] o IH]; cbn [JSObject.get List.map fst]; intros Hin.
  - inversion Hin.
  - destruct (String.eqb_spec k' k) as [->|Hne]; [eexists; reflexivity|].
    apply elem_of_cons in Hin as [->|Hin]; [contradiction | exact (IH Hin)].
Qed.

Lemma groupByCategory_snoc (projectDetails : list ProgressEntry) (p : ProgressEntry) :
  groupByCategory (projectDetails ++ [p])
  = if inherited (categoryOf p) then groupByCategory projectDetails
    else countOwn (categoryOf p) (succeeded p) (groupByCategory projectDetails).
Proof. unfold groupByCategory. rewrite fold_left_app. reflexivity. Qed.

Lemma groupByCategory_get (projectDetails : list ProgressEntry) (k : string) :
  JSObject.get (groupByCategory projectDetails) k
  = if inherited k then None
    else if Nat.eqb (length (categoryProjects k projectDetails)) 0 then None
         else Some (categoryCounts projectDetails k).
Proof.
  revert k. induction projectDetails as [|p pd IH] using rev_ind; intros k.
  - destruct (inherited k); reflexivity.
  - rewrite groupByCategory_snoc.
    destruct (inherited (categoryOf p)) eqn:Hp.
    { rewrite (IH k). destruct (inherited k) eqn:Hk; [reflexivity|].
      assert (Hf : inCategory k p = false).
      { unfold inCategory.
        destruct (String.eqb_spec (categoryOf p) k); [congruence | reflexivity]. }
      unfold categoryCounts, categoryProjects. rewrite !List.filter_app.
      cbn [List.filter]. rewrite Hf. cbn [List.filter]. rewrite !app_nil_r.
      reflexivity. }
    rewrite get_count. destruct (inherited k) eqn:Hk.
    { destruct (String.eqb_spec (categoryOf p) k) as [E|Hne]; [congruence|].
      rewrite (IH k), Hk. reflexivity. }
    unfold categoryCounts, categoryProjects. rewrite !List.filter_app.
    cbn [List.filter]. unfold inCategory at 2 4 6.
    destruct (String.eqb_spec (categoryOf p) k) as [E|Hne].
    + rewrite E, (IH k), Hk. unfold categoryCounts, categoryProjects.
      rewrite !length_app. cbn [List.filter length].
      replace (length (List.filter (inCategory k) pd) + 1 =? 0)%nat with false
        by (symmetry; apply Nat.eqb_neq; lia).
      f_equal.
      destruct (List.filter (inCategory k) pd) as [|q qs] eqn:Eq.
      * cbn [length Nat.eqb List.filter]. destruct (succeeded p); reflexivity.
      * cbn [Nat.eqb c_total c_completed].
        destruct (succeeded p); cbn [length]; f_equal;
          cbn [c_total c_completed]; lia.
    + rewrite !app_nil_r, (IH k), Hk. reflexivity.
Qed.

Lemma groupByCategory_keys_NoDup (projectDetails : list ProgressEntry) :
  NoDup (List.map fst (groupByCategory projectDetails)).
Proof.
  induction projectDetails as [|p pd IH] using rev_ind; [constructor|].
  rewrite groupByCategory_snoc.
  destruct (inherited (categoryOf p)); [exact IH|]. rewrite count_keys.
  destruct (JSObject.get (groupByCategory pd) (categoryOf p)) eqn:E; [exact IH|].
  apply NoDup_app. split; [exact IH|]. split; [|apply NoDup_singleton].
  intros x Hx Hin. apply list_elem_of_singleton in Hin. subst x.
  exact (get_None_keys _ _ E Hx).
Qed.

(** X19. After the grouping loop of [createProjectDistribution] the object
    holds one entry for each category that occurs and is not a property
    name of [Object.prototype], and the entry of a category counts its
    projects and the succeeded ones among them; a category without projects,
    and a category named like a property of [Object.prototype], has no
    entry. *)
Theorem groupByCategory_counts (projectDetails : list ProgressEntry) :
  NoDup (List.map fst (groupByCategory projectDetails))
  /\ forall k : string,
      JSObject.get (groupByCategory projectDetails) k
      = if inherited k then None
        else if Nat.eqb (length (categoryProjects k projectDetails)) 0 then None
             else Some (categoryCounts projectDetails k).
Proof.
  split; [apply groupByCategory_keys_NoDup | apply groupByCategory_get].
Qed.

Lemma filter_partition_perm {A} (f : A -> bool) (l : list A) :
  List.filter f l ++ List.filter (fun x => negb (f x)) l ≡ₚ l.
Proof.
  induction l as [|x l IH]; [reflexivity|].
  cbn [List.filter]. destruct (f x); cbn [negb].
  - cbn [app]. rewrite IH. reflexivity.
  - rewrite <- Permutation_middle, IH. reflexivity.
Qed.

Lemma indexed_keys (ks : list string) :
  List.map snd (omap (fun k => (fun v => (v, k)) <$> JSObject.arrayIndex k) ks)
  = List.filter JSObject.isArrayIndex ks.
Proof.
  induction ks as [|k ks IH]; [reflexivity|].
  cbn [omap list_omap List.filter]. unfold JSObject.isArrayIndex at 1.
  destruct (JSObject.arrayIndex k); cbn [fmap option_fmap option_map List.map snd];
    rewrite <- IH; reflexivity.
Qed.

Lemma keys_perm {V} (o : list (string * V)) : JSObject.keys o ≡ₚ List.map fst o.
Proof.
  unfold JSObject.keys.
  rewrite (Permutation_map snd (sortBy_perm _ _)), indexed_keys.
  apply filter_partition_perm.
Qed.

Lemma omap_imap_total {A B C} (look : A -> option B) (the : A -> B) (l : list A) :
  (forall k, k ∈ l -> look k = Some (the k)) ->
  forall h : nat -> A -> B -> C,
    omap id (imap (fun i k => c ← look k; Some (h i k c)) l)
    = imap (fun i k => h i k (the k)) l.
Proof.
  induction l as [|x l IH]; intros Hl h; [reflexivity|].
  cbn [imap omap list_omap]. rewrite (Hl x) by (left).
  cbn [mbind option_bind id]. f_equal.
  apply (IH (fun k Hk => Hl k (list_elem_of_further _ _ _ Hk)) (fun i => h (S i))).
Qed.

Lemma map_imap_label (l : list string) :
  forall g : nat -> string -> CategoryBar,
    (forall i k, cb_label (g i k) = k) -> List.map cb_label (imap g l) = l.
Proof.
  induction l as [|x l IH]; intros g Hg; [reflexivity|].
  cbn [imap List.map]. rewrite Hg. f_equal. apply IH. intros i k. apply Hg.
Qed.

(** X20. [createProjectDistribution] draws one bar for each category that
    has an entry (see X19), in the order of [Object.keys]. The bars share the width 160 / n for n
    categories and start 5 apart from x = 20, so the last bar ends at
    175 + 5 n, beyond the view box of width 200 as soon as there are more
    than 5 categories. Every bar has a finite height between 0 and 60, the
    succeeded share of its category times 60, stands on y = 70 and shows the
    number of succeeded projects of its category. *)
Theorem createProjectDistribution_bars (projectDetails : list ProgressEntry) :
  let bars := createProjectDistribution projectDetails in
  let n := inject_Z (Z.of_nat (length (groupByCategory projectDetails))) in
  length bars = length (groupByCategory projectDetails)
  /\ List.map cb_label bars = JSObject.keys (groupByCategory projectDetails)
  /\ forall (i : nat) (bar : CategoryBar),
      bars !! i = Some bar ->
      exists x y w h : Q,
        r_x (cb_bar bar) = Fin x /\ r_y (cb_bar bar) = Fin y
        /\ r_width (cb_bar bar) = Fin w /\ r_height (cb_bar bar) = Fin h
        /\ (w * n == 160)%Q
        /\ (x == 20 + inject_Z (Z.of_nat i) * (w + 5))%Q
        /\ (0 <= h)%Q /\ (h <= 60)%Q /\ (y + h == 70)%Q
        /\ (h * inject_Z (Z.of_nat (length (categoryProjects (cb_label bar)
                                                            projectDetails)))
            == 60 * inject_Z (cb_count bar))%Q
        /\ cb_count bar
           = Z.of_nat (length (List.filter succeeded
                                 (categoryProjects (cb_label bar) projectDetails)))
        /\ (S i = length bars -> (x + w == 175 + 5 * n)%Q).
Proof.
  intros bars n.
  set (cats := groupByCategory projectDetails) in *.
  set (names := JSObject.keys cats).
  assert (Hlen : length names = length cats).
  { unfold names. rewrite (Permutation_length (keys_perm cats)).
    apply length_map. }
  assert (Hget : forall k, k ∈ names ->
            JSObject.get cats k = Some (categoryCounts projectDetails k)
            /\ length (categoryProjects k projectDetails) <> 0%nat).
  { intros k Hk. unfold names in Hk. rewrite (keys_perm cats) in Hk.
    apply get_Some_keys in Hk as [c Hc]. unfold cats in *.
    rewrite groupByCategory_get in Hc |- *.
    destruct (inherited k); [discriminate Hc|].
    destruct (Nat.eqb_spec (length (categoryProjects k projectDetails)) 0);
      [discriminate Hc | split; [reflexivity | assumption]]. }
  assert (Hbars : bars
    = imap (fun index category =>
              let c := categoryCounts projectDetails category in
              let barWidth := Num.div (Fin 160) (Num.ofNat (length names)) in
              let x := Num.add (Fin 20)
                         (Num.mul (Num.ofNat index) (Num.add barWidth (Fin 5))) in
              let completedHeight :=
                Num.mul (Num.div (Num.ofZ (c_completed c)) (Num.ofZ (c_total c)))
                        (Fin 60) in
              mkCategoryBar
                (mkRect x (Num.sub (Fin 70) completedHeight) barWidth
                        completedHeight "#2ecc71")
                category
                (Num.add x (Num.div barWidth (Fin 2)))
                (Num.sub (Fin 65) completedHeight)
                (c_completed c)) names).
  { unfold bars, createProjectDistribution. fold cats. fold names.
    apply (omap_imap_total (JSObject.get cats) (categoryCounts projectDetails) names
             (fun k Hk => proj1 (Hget k Hk))). }
  assert (Hblen : length bars = length cats)
    by (rewrite Hbars, length_imap; exact Hlen).
  split; [exact Hblen|].
  split; [rewrite Hbars; apply map_imap_label; reflexivity|].
  intros i bar Hbar. rewrite Hbars, list_lookup_imap in Hbar.
  destruct (names !! i) as [k|] eqn:Hk; [|discriminate Hbar].
  cbn [fmap option_fmap option_map] in Hbar. apply (inj Some) in Hbar.
  destruct (Hget k (list_elem_of_lookup_2 _ _ _ Hk)) as [_ Hne].
  pose proof (lookup_lt_Some _ _ _ Hk) as Hi. rewrite Hlen in Hi.
  assert (Hw : Num.div (Fin 160) (Num.ofNat (length names))
               = Fin (160 / n)).
  { unfold Num.ofNat. rewrite Hlen. apply div_Fin, Qzero_b_inject. lia. }
  rewrite Hw in Hbar.
  set (T := length (categoryProjects k projectDetails)) in *.
  set (S' := length (List.filter succeeded (categoryProjects k projectDetails))).
  assert (Hh : Num.div (Num.ofZ (c_completed (categoryCounts projectDetails k)))
                       (Num.ofZ (c_total (categoryCounts projectDetails k)))
               = Fin (inject_Z (Z.of_nat S') / inject_Z (Z.of_nat T))).
  { unfold categoryCounts. cbn [c_completed c_total]. fold T. fold S'.
    apply div_Fin, Qzero_b_inject. lia. }
  rewrite Hh in Hbar. subst bar. cbn [cb_bar cb_label cb_count r_x r_y r_width r_height].
  assert (Hn : (0 < n)%Q) by (unfold n; rewrite <- (Zlt_Qlt 0); lia).
  assert (HT : (0 < inject_Z (Z.of_nat T))%Q) by (rewrite <- (Zlt_Qlt 0); lia).
  assert (HS0 : (0 <= inject_Z (Z.of_nat S'))%Q) by (rewrite <- (Zle_Qle 0); lia).
  assert (HST : (inject_Z (Z.of_nat S') <= inject_Z (Z.of_nat T))%Q).
  { rewrite <- Zle_Qle. apply inj_le. apply length_filter_le. }
  assert (Hq0 : (0 <= inject_Z (Z.of_nat S') / inject_Z (Z.of_nat T))%Q)
    by (apply Qle_shift_div_l; [exact HT | lra]).
  assert (Hq1 : (inject_Z (Z.of_nat S') / inject_Z (Z.of_nat T) <= 1)%Q)
    by (apply Qle_shift_div_r; [exact HT | lra]).
  eexists _, _, _, _.
  split; [reflexivity|]. split; [reflexivity|]. split; [reflexivity|].
  split; [reflexivity|].
  split; [field; lra|]. split; [reflexivity|].
  split; [lra|]. split; [lra|]. split; [ring|].
  split; [unfold categoryCounts; cbn [c_completed]; fold T; fold S'; field; lra|].
  split; [reflexivity|].
  intros HSi. rewrite Hblen in HSi.
  assert (HI : (inject_Z (Z.of_nat i) == n - 1)%Q).
  { unfold n. rewrite <- HSi, Nat2Z.inj_succ, <- Z.add_1_r, inject_Z_plus.
    change (inject_Z 1) with 1%Q. ring. }
  rewrite HI. field. lra.
Qed.

(** A category named like a property of [Object.prototype] gets no entry
    and no bar. *)
Example createProjectDistribution_inherited_category :
  let projectDetails := [ mkProgressEntry "/constructor/x" true 1;
                          mkProgressEntry "/a/y" true 1 ] in
  List.map fst (groupByCategory projectDetails) = ["a"]
  /\ List.map cb_label (createProjectDistribution projectDetails) = ["a"].
Proof. vm_compute. split; reflexivity. Qed.

Lemma createProjectDistribution_bars_witness :
  exists (bar : CategoryBar) (h : Q),
    createProjectDistribution sampleProgress !! 0%nat = Some bar
    /\ r_height (cb_bar bar) = Fin h /\ (h <= 60)%Q.
Proof.
  destruct (createProjectDistribution sampleProgress !! 0%nat)
    as [bar|] eqn:E; [|vm_compute in E; discriminate E].
  destruct (createProjectDistribution_bars sampleProgress) as (_ & _ & H).
  destruct (H 0%nat bar E) as (x & y & w & h & _ & _ & _ & Hh & _ & _ & _ & Hle & _).
  exists bar, h. split; [reflexivity|]. split; [exact Hh | exact Hle].
Defined.

End Distribution.

(** ** The audit chart away from its degenerate input *)

Section AuditChart.

Import SVGUtils.

Lemma max_pair (u d : Q) :
  Num.max [Fin u; Fin d] = Fin (if Qle_bool d u then u else d).
Proof.
  unfold Num.max. cbn [fold_left Num.max2 Num.gtb].
  destruct (Qle_bool d u); reflexivity.
Qed.

(** X21. For counts that are not negative and not both zero,
    [createAuditRatioChart] draws two bars of finite height between 0 and
    100 that stand on y = 100: the bar of the larger count is 100 high and
    the heights are in the proportion of the counts. The bars are 48 wide
    at x = 0 and x = 50. *)
Theorem createAuditRatioChart_regular (u d : Q) :
  (0 <= u)%Q -> (0 <= d)%Q -> (0 < u \/ 0 < d)%Q ->
  exists (r0 r1 : Rect) (h0 h1 y0 y1 : Q),
    createAuditRatioChart (Fin u) (Fin d) = [r0; r1]
    /\ r_height r0 = Fin h0 /\ r_height r1 = Fin h1
    /\ r_y r0 = Fin y0 /\ r_y r1 = Fin y1
    /\ (0 <= h0)%Q /\ (h0 <= 100)%Q /\ (0 <= h1)%Q /\ (h1 <= 100)%Q
    /\ (y0 + h0 == 100)%Q /\ (y1 + h1 == 100)%Q
    /\ ((d <= u)%Q -> (h0 == 100)%Q) /\ ((u <= d)%Q -> (h1 == 100)%Q)
    /\ (h0 * d == h1 * u)%Q
    /\ Num.eq (r_x r0) (Fin 0) /\ Num.eq (r_x r1) (Fin 50)
    /\ Num.eq (r_width r0) (Fin 48) /\ Num.eq (r_width r1) (Fin 48).
Proof.
  intros Hu Hd Hpos.
  set (m := if Qle_bool d u then u else d).
  assert (Hm : (0 < m)%Q /\ (u <= m)%Q /\ (d <= m)%Q
               /\ ((d <= u)%Q -> (m == u)%Q) /\ ((u <= d)%Q -> (m == d)%Q)).
  { unfold m. destruct (Qle_bool d u) eqn:E.
    - apply Qle_bool_iff in E. repeat split; try lra; destruct Hpos; lra.
    - assert (~ (d <= u)%Q) by (intros C; apply Qle_bool_iff in C; congruence).
      repeat split; try lra; destruct Hpos; lra. }
  destruct Hm as (Hm0 & Hum & Hdm & Hmu & Hmd).
  assert (Hb : Num.Qzero_b m = false).
  { unfold Num.Qzero_b. destruct (Qeq_bool m 0) eqn:E; [|reflexivity].
    apply Qeq_bool_eq in E. lra. }
  assert (Hqu : (0 <= u / m)%Q /\ (u / m <= 1)%Q).
  { split; [apply Qle_shift_div_l | apply Qle_shift_div_r]; lra. }
  assert (Hqd : (0 <= d / m)%Q /\ (d / m <= 1)%Q).
  { split; [apply Qle_shift_div_l | apply Qle_shift_div_r]; lra. }
  unfold createAuditRatioChart, auditBars. rewrite max_pair. fold m.
  cbn [imap length compose]. rewrite !(div_Fin _ m Hb).
  change (Num.div (Fin 100) (Num.ofNat 2)) with (Fin (100 / inject_Z 2)).
  cbn [Num.mul Num.sub Num.add Num.opp Num.ofNat].
  eexists _, _, _, _, _, _.
  split; [reflexivity|]. cbn [r_height r_y r_x r_width Num.eq].
  split; [reflexivity|]. split; [reflexivity|].
  split; [reflexivity|]. split; [reflexivity|].
  split; [lra|]. split; [lra|]. split; [lra|]. split; [lra|].
  split; [ring|]. split; [ring|].
  split; [intros H; rewrite (Hmu H); field; destruct Hpos; lra|].
  split; [intros H; rewrite (Hmd H); field; destruct Hpos; lra|].
  split; [field; lra|].
  split; [reflexivity|]. split; [reflexivity|]. split; reflexivity.
Qed.

Lemma createAuditRatioChart_regular_witness :
  exists (r0 r1 : Rect) (h0 h1 : Q),
    createAuditRatioChart (Fin 3) (Fin 1) = [r0; r1]
    /\ r_height r0 = Fin h0 /\ r_height r1 = Fin h1
    /\ (h0 == 100)%Q /\ (h0 * 1 == h1 * 3)%Q.
Proof.
  destruct (createAuditRatioChart_regular 3 1) as
    (r0 & r1 & h0 & h1 & y0 & y1 & Hc & H0 & H1 & _ & _ & _ & _ & _ & _ & _ & _
     & Hbig & _ & Hprop & _); [lra | lra | left; lra |].
  exists r0, r1, h0, h1.
  split; [exact Hc|]. split; [exact H0|]. split; [exact H1|].
  split; [apply Hbig; lra | exact Hprop].
Defined.

End AuditChart.
